(** * Retirement portfolio simulator: the simulation engine of [app.py] and [plan.py]

    Python floats are idealised as real numbers: arithmetic is exact and
    unbounded.  A value of type [float] is either a real number or [nan],
    the result numpy gives to a power that has no real value.  Python
    exceptions are modelled by [Raise]; the DataFrame [df] that the code
    fills column by column and numpy's global random generator are the
    state threaded through the simulation. *)

From Stdlib Require Import Reals Lra Lia List ZArith Bool.
From Stdlib Require Import Sorted.
Import ListNotations.

Open Scope R_scope.

(** ** Floats *)

Module Float.

Definition float : Type := option R.

Definition nan : float := None.
Definition fin (x : R) : float := Some x.

Definition lift2 (f : R -> R -> R) (a b : float) : float :=
  match a, b with
  | Some x, Some y => Some (f x y)
  | _, _ => None
  end.

Definition add := lift2 Rplus.
Definition sub := lift2 Rminus.
Definition mul := lift2 Rmult.

Definition Rleb (x y : R) : bool := if Rle_dec x y then true else false.
Definition Rltb (x y : R) : bool := if Rlt_dec x y then true else false.
Definition Reqb (x y : R) : bool := if Req_dec_T x y then true else false.

(** [a >= 0]; every comparison with nan is False. *)
Definition ge0 (a : float) : bool :=
  match a with
  | Some x => Rleb 0 x
  | None => false
  end.

Definition is_integer (y : R) : bool := Reqb (IZR (Int_part y)) y.

(** [x ** y] on floats.  A positive base has the real power
    [exp (y * ln x)]; a zero base gives 1 for [y = 0], 0 for [y > 0] and
    no finite value for [y < 0]; a negative base has a real power only
    for an integral exponent.  [None] is numpy's nan (Python's own [**]
    on two floats returns a complex number there). *)
Definition power (x y : R) : float :=
  if Rltb 0 x then Some (Rpower x y)
  else if Reqb x 0 then
    (if Reqb y 0 then Some 1 else if Rltb 0 y then Some 0 else None)
  else
    (if is_integer y then Some (powerRZ x (Int_part y)) else None).

(** [np.prod] of an array. *)
Definition prod (l : list R) : R := fold_left Rmult l 1.

End Float.

Import Float.

Declare Scope float_scope.
Delimit Scope float_scope with float.
Infix "+" := Float.add : float_scope.
Infix "-" := Float.sub : float_scope.
Infix "*" := Float.mul : float_scope.

(** ** Exceptions, and the state-and-exception monad *)

Inductive exn : Type :=
| ValueError
| IndexError
| TypeError
| ZeroDivisionError.

Inductive result (A : Type) : Type :=
| Ok (a : A)
| Raise (e : exn).

Arguments Ok {A} a.
Arguments Raise {A} e.

Definition rbind {A B : Type} (r : result A) (k : A -> result B) : result B :=
  match r with
  | Ok a => k a
  | Raise e => Raise e
  end.

(** ** The runtime: numpy's global generator and the pandas at hand

    [standard_normal] and [random_sample] draw one deviate and advance the
    generator.  pandas versions differ on a negative [periods] in
    [pd.date_range]: some raise ValueError, the others return an empty
    index; [negative_periods_raise] says which one is installed. *)

Class Runtime : Type := {
  rng : Type;
  standard_normal : rng -> R * rng;
  random_sample : rng -> R * rng;
  negative_periods_raise : bool
}.

(** ** The calendar behind [pd.date_range(start='2025-01-01', freq='ME')] *)

Module Calendar.

Open Scope Z_scope.

Definition is_leap (y : Z) : bool :=
  ((y mod 4 =? 0) && negb (y mod 100 =? 0)) || (y mod 400 =? 0).

Definition days_in_month (y m : Z) : Z :=
  match m with
  | 2 => if is_leap y then 29 else 28
  | 4 | 6 | 9 | 11 => 30
  | _ => 31
  end.

(** Length of the [k]-th month counted from January 2025. *)
Definition month_length (k : nat) : Z :=
  days_in_month (2025 + Z.of_nat k / 12) (Z.of_nat k mod 12 + 1).

(** Day number, counted from 2025-01-01, of the last day of month [k]. *)
Fixpoint month_end (k : nat) : Z :=
  match k with
  | O => month_length 0 - 1
  | S j => month_end j + month_length (S j)
  end.

Definition month_ends (n : nat) : list Z := map month_end (seq 0 n).

End Calendar.

Section Machinery.

Context {RT : Runtime}.

(** [pd.date_range(start=starting_date, periods=periods, freq='ME')], as the
    day numbers of the month ends. *)
Definition date_range (periods : Z) : result (list Z) :=
  if (periods <? 0)%Z then
    (if negative_periods_raise then Raise ValueError else Ok [])
  else Ok (Calendar.month_ends (Z.to_nat periods)).

(** [np.random.normal(loc, scale, size)]: [size] deviates [loc + scale * z],
    drawn one after the other. *)
Fixpoint normal_draws (loc scale : R) (size : nat) (g : rng) : list R * rng :=
  match size with
  | O => ([], g)
  | S k =>
      let (z, g1) := standard_normal g in
      let (zs, g2) := normal_draws loc scale k g1 in
      ((loc + scale * z) :: zs, g2)
  end.

(** [np.random.random(size)]. *)
Fixpoint uniform_draws (size : nat) (g : rng) : list R * rng :=
  match size with
  | O => ([], g)
  | S k =>
      let (u, g1) := random_sample g in
      let (us, g2) := uniform_draws k g1 in
      (u :: us, g2)
  end.


(** ** The DataFrame and the simulation state *)

Record DataFrame : Type := {
  index : list Z;
  Age : list R;
  Monthly_Income : list float;
  Monthly_Expenses : list float;
  Monthly_Investment : list float;
  Portfolio_Value : list float
}.

(** [pd.DataFrame(index=dates)]: no column yet. *)
Definition new_frame (dates : list Z) : DataFrame :=
  {| index := dates; Age := []; Monthly_Income := []; Monthly_Expenses := [];
     Monthly_Investment := []; Portfolio_Value := [] |}.

Definition set_Age (v : list R) (df : DataFrame) : DataFrame :=
  {| index := index df; Age := v; Monthly_Income := Monthly_Income df;
     Monthly_Expenses := Monthly_Expenses df;
     Monthly_Investment := Monthly_Investment df;
     Portfolio_Value := Portfolio_Value df |}.

Definition set_Monthly_Income (v : list float) (df : DataFrame) : DataFrame :=
  {| index := index df; Age := Age df; Monthly_Income := v;
     Monthly_Expenses := Monthly_Expenses df;
     Monthly_Investment := Monthly_Investment df;
     Portfolio_Value := Portfolio_Value df |}.

Definition set_Monthly_Expenses (v : list float) (df : DataFrame) : DataFrame :=
  {| index := index df; Age := Age df; Monthly_Income := Monthly_Income df;
     Monthly_Expenses := v;
     Monthly_Investment := Monthly_Investment df;
     Portfolio_Value := Portfolio_Value df |}.

Definition set_Monthly_Investment (v : list float) (df : DataFrame) : DataFrame :=
  {| index := index df; Age := Age df; Monthly_Income := Monthly_Income df;
     Monthly_Expenses := Monthly_Expenses df;
     Monthly_Investment := v;
     Portfolio_Value := Portfolio_Value df |}.

Definition set_Portfolio_Value (v : list float) (df : DataFrame) : DataFrame :=
  {| index := index df; Age := Age df; Monthly_Income := Monthly_Income df;
     Monthly_Expenses := Monthly_Expenses df;
     Monthly_Investment := Monthly_Investment df;
     Portfolio_Value := v |}.

(** Assignment to an existing position of a column or array. *)
Fixpoint set_nth {A : Type} (l : list A) (i : nat) (v : A) : list A :=
  match l, i with
  | [], _ => []
  | _ :: t, O => v :: t
  | h :: t, S k => h :: set_nth t k v
  end.

(** [df.iloc[i, df.columns.get_loc('Portfolio_Value')] = v]; the loops only
    use it with [i < len(df)]. *)
Definition iloc_set_Portfolio_Value (i : nat) (v : float) (df : DataFrame) : DataFrame :=
  set_Portfolio_Value (set_nth (Portfolio_Value df) i v) df.

(** [df.iloc[i, df.columns.get_loc('Monthly_Investment')]]. *)
Definition iloc_Monthly_Investment (df : DataFrame) (i : nat) : float :=
  nth i (Monthly_Investment df) nan.

(** [l[a:b]] for [0 <= a]. *)
Definition slice {A : Type} (l : list A) (a b : nat) : list A :=
  firstn (b - a) (skipn a l).

Record state : Type := { frame : DataFrame; gen : rng }.

Definition M (A : Type) : Type := state -> result A * state.

Definition ret {A : Type} (a : A) : M A := fun s => (Ok a, s).

Definition bind {A B : Type} (c : M A) (k : A -> M B) : M B :=
  fun s =>
    match c s with
    | (Ok a, s') => k a s'
    | (Raise e, s') => (Raise e, s')
    end.

Definition lift {A : Type} (r : result A) : M A := fun s => (r, s).

Definition get_frame : M DataFrame := fun s => (Ok (frame s), s).

Definition modify_frame (f : DataFrame -> DataFrame) : M unit :=
  fun s => (Ok tt, {| frame := f (frame s); gen := gen s |}).

Definition with_rng {A : Type} (f : rng -> A * rng) : M A :=
  fun s => let (a, g) := f (gen s) in (Ok a, {| frame := frame s; gen := g |}).

(** [df.index[0]]. *)
Definition index0 : M Z :=
  bind get_frame (fun df =>
  match index df with
  | [] => lift (Raise IndexError)
  | d :: _ => ret d
  end).

(** [np.random.normal(loc=loc, scale=scale, size=size)].  [loc] must be a
    real float and [scale] must not be negative. *)
Definition np_random_normal (loc : float) (scale : R) (size : nat) : M (list R) :=
  match loc with
  | None => lift (Raise TypeError)
  | Some l =>
      if Rltb scale 0 then lift (Raise ValueError)
      else with_rng (normal_draws l scale size)
  end.

(** [x / y] on Python numbers. *)
Definition py_div (x y : R) : result R :=
  if Reqb y 0 then Raise ZeroDivisionError else Ok (x / y).

(** A [for] loop whose body may raise. *)
Fixpoint for_each {S : Type} (body : S -> nat -> result S) (l : list nat) (s : S)
  : result S :=
  match l with
  | [] => Ok s
  | i :: rest => rbind (body s i) (for_each body rest)
  end.

End Machinery.

Notation "x <- c ;; k" := (bind c (fun x => k))
  (at level 61, c at next level, right associativity).
Notation "c ;;; k" := (bind c (fun _ => k))
  (at level 61, right associativity).

(** ** app.py *)

Module App.

Record Params : Type := {
  starting_age : Z;
  retirement_age : Z;
  monthly_income : R;
  monthly_expenses : R;
  annual_return_rate : R;
  annual_volatility : R;
  inflation_rate : R;
  initial_investment : R;
  num_simulations : Z
}.

Definition get_default_params : Params :=
  {| starting_age := 24; retirement_age := 65;
     monthly_income := 5000; monthly_expenses := 3500;
     annual_return_rate := 0.07; annual_volatility := 0.15;
     inflation_rate := 0.03; initial_investment := 50000;
     num_simulations := 100 |}.

Definition flat_interest_rate : R := 0.05.

(** One iteration of the loop of [calculate_trailing_return]:
    [trailing_returns.append(...)]. *)
Definition trailing_step (returns : list R) (window : nat)
    (trailing_returns : list float) (i : nat) : result (list float) :=
  if (i <? window)%nat then Ok (trailing_returns ++ [nan])
  else
    let window_returns := slice returns (i - window) i in
    let cumulative_return := prod (map (Rplus 1) window_returns) - 1 in
    rbind (py_div 12 (INR window)) (fun e =>
    let annualized_return := (power (1 + cumulative_return) e - fin 1)%float in
    Ok (trailing_returns ++ [annualized_return])).

Definition calculate_trailing_return (returns : list R) (window : nat)
  : result (list float) :=
  for_each (trailing_step returns window) (seq 0 (length returns)) [].

Definition default_window : nat := 24.

(** One iteration of the portfolio loop of [generate_simulation], on the
    local [current_portfolio] and the DataFrame. *)
Definition portfolio_step (monthly_returns : list R)
    (st : float * DataFrame) (i : nat) : float * DataFrame :=
  let (current_portfolio, df) := st in
  if (i =? 0)%nat then
    let portfolio_with_investment :=
      (current_portfolio + iloc_Monthly_Investment df i)%float in
    let df' :=
      if ge0 portfolio_with_investment then
        iloc_set_Portfolio_Value i
          (portfolio_with_investment * fin (1 + nth i monthly_returns 0))%float df
      else
        iloc_set_Portfolio_Value i
          (portfolio_with_investment * fin (1 + flat_interest_rate / 12))%float df in
    (nth i (Portfolio_Value df') nan, df')
  else
    let portfolio_with_investment :=
      (current_portfolio + iloc_Monthly_Investment df i)%float in
    let current_portfolio' :=
      if ge0 portfolio_with_investment then
        (portfolio_with_investment * fin (1 + nth i monthly_returns 0))%float
      else
        (portfolio_with_investment * fin (1 + flat_interest_rate / 12))%float in
    (current_portfolio', iloc_set_Portfolio_Value i current_portfolio' df).

Definition portfolio_loop (monthly_returns : list R) (initial : float)
    (df : DataFrame) : float * DataFrame :=
  fold_left (portfolio_step monthly_returns) (seq 0 (length (index df)))
    (initial, df).

Section Run.

Context {RT : Runtime}.

(** The draw of [monthly_returns], lines 62 to 69. *)
Definition draw_monthly_returns (params : Params) (size : nat) : M (list R) :=
  let monthly_volatility := annual_volatility params / sqrt 12 in
  let monthly_expected_return :=
    (power (1 + annual_return_rate params) (1 / 12) - fin 1)%float in
  np_random_normal monthly_expected_return monthly_volatility size.

Definition generate_simulation (params : Params) : M (DataFrame * list float) :=
  let num_months := ((retirement_age params - starting_age params) * 12)%Z in
  dates <- lift (date_range num_months) ;;
  modify_frame (fun _ => new_frame dates) ;;;
  first <- index0 ;;
  modify_frame (fun df =>
    set_Age (map (fun d => IZR (starting_age params) + IZR (d - first) / 365.25)
                 (index df)) df) ;;;
  modify_frame (fun df =>
    set_Monthly_Income
      (map (fun age => (fin (monthly_income params)
                        * power (1 + inflation_rate params)
                                (age - IZR (starting_age params)))%float)
           (Age df)) df) ;;;
  modify_frame (fun df =>
    set_Monthly_Expenses
      (map (fun age => (fin (monthly_expenses params)
                        * power (1 + inflation_rate params)
                                (age - IZR (starting_age params)))%float)
           (Age df)) df) ;;;
  modify_frame (fun df =>
    set_Monthly_Investment
      (map (fun ie => (fst ie - snd ie)%float)
           (combine (Monthly_Income df) (Monthly_Expenses df))) df) ;;;
  df <- get_frame ;;
  monthly_returns <- draw_monthly_returns params (length (index df)) ;;
  modify_frame (fun df => set_Portfolio_Value (map (fun _ => fin 0) (index df)) df) ;;;
  modify_frame (fun df =>
    snd (portfolio_loop monthly_returns (fin (initial_investment params)) df)) ;;;
  trailing_returns <- lift (calculate_trailing_return monthly_returns default_window) ;;
  df <- get_frame ;;
  ret (df, trailing_returns).

(** The batch loop of [update_graph], lines 242 to 248. *)
Fixpoint run_simulations (params : Params) (n : nat)
    (all_simulations : list DataFrame) (all_trailing_returns : list (list float))
  : M (list DataFrame * list (list float)) :=
  match n with
  | O => ret (all_simulations, all_trailing_returns)
  | S k =>
      r <- generate_simulation params ;;
      run_simulations params k (all_simulations ++ [fst r])
                      (all_trailing_returns ++ [snd r])
  end.

Definition simulate_batch (params : Params)
  : M (list DataFrame * list (list float)) :=
  run_simulations params (Z.to_nat (num_simulations params)) [] [].

End Run.

End App.

(** ** plan.py *)

Module Plan.

Definition starting_age : Z := 24.
Definition retirement_age : Z := 65.
Definition monthly_income : R := 5000.
Definition monthly_expenses : R := 3500.
Definition annual_return_rate : R := 0.07.
Definition annual_volatility : R := 0.15.
Definition monthly_volatility : R := annual_volatility / sqrt 12.
(** The base [1 + annual_return_rate] is positive, so that [**] is the real
    power (lemma [plan_monthly_expected_return_power] below). *)
Definition monthly_expected_return : R :=
  Rpower (1 + annual_return_rate) (1 / 12) - 1.
Definition inflation_rate : R := 0.03.

Definition crash_probability : R := 0.02.
Definition crash_return : R := -0.20.
Definition crash_recovery_months : nat := 12.

Definition num_months : Z := (retirement_age - starting_age) * 12.

Definition initial_portfolio : R := 50000.

Definition trailing_step (returns : list R) (window : nat)
    (trailing_returns : list float) (i : nat) : result (list float) :=
  if (i <? window)%nat then Ok (trailing_returns ++ [nan])
  else
    let window_returns := slice returns (i - window) i in
    rbind (py_div 12 (INR window)) (fun e =>
    let annualized_return :=
      (power (1 + prod (map (Rplus 1) window_returns)) e - fin 1)%float in
    Ok (trailing_returns ++ [annualized_return])).

Definition calculate_trailing_return (returns : list R) (window : nat)
  : result (list float) :=
  for_each (trailing_step returns window) (seq 0 (length returns)) [].

(** One iteration of the portfolio loop, lines 92 to 100. *)
Definition portfolio_step (monthly_returns : list R)
    (st : float * DataFrame) (i : nat) : float * DataFrame :=
  let (current_portfolio, df) := st in
  if (i =? 0)%nat then
    let df' :=
      iloc_set_Portfolio_Value i
        ((current_portfolio + iloc_Monthly_Investment df i)
         * fin (1 + nth i monthly_returns 0))%float df in
    (nth i (Portfolio_Value df') nan, df')
  else
    let current_portfolio' :=
      (current_portfolio * fin (1 + nth i monthly_returns 0)
       + iloc_Monthly_Investment df i)%float in
    (current_portfolio', iloc_set_Portfolio_Value i current_portfolio' df).

Definition portfolio_loop (monthly_returns : list R) (initial : float)
    (df : DataFrame) : float * DataFrame :=
  fold_left (portfolio_step monthly_returns) (seq 0 (length (index df)))
    (initial, df).

Section Run.

Context {RT : Runtime}.

(** The body of [for j in range(1, recovery_months)], lines 80 to 86.  The
    scale [monthly_volatility * 1.5] is a positive constant and the mean a
    real float, so that this draw does not raise. *)
Definition recovery_step (len_df i recovery_months : nat)
    (st : list R * rng) (j : nat) : list R * rng :=
  let (monthly_returns, g) := st in
  if (i + j <? len_df)%nat then
    let (draw, g') :=
      normal_draws (monthly_expected_return * (INR j / INR recovery_months))
                   (monthly_volatility * 1.5) 1 g in
    (set_nth monthly_returns (i + j) (nth 0 draw 0), g')
  else st.

(** The body of [for i in range(len(df))], lines 74 to 86. *)
Definition crash_step (len_df : nat) (crash_months : list bool)
    (st : list R * rng) (i : nat) : list R * rng :=
  let (monthly_returns, g) := st in
  if nth i crash_months false then
    let monthly_returns := set_nth monthly_returns i crash_return in
    let recovery_months := Nat.min crash_recovery_months (len_df - i) in
    fold_left (recovery_step len_df i recovery_months)
              (seq 1 (recovery_months - 1)) (monthly_returns, g)
  else st.

(** The crash injection, lines 72 to 86, after the draw of [crash_months]. *)
Definition simulate_market_crashes (len_df : nat) (crash_months : list bool)
    (monthly_returns : list R) (g : rng) : list R * rng :=
  fold_left (crash_step len_df crash_months) (seq 0 len_df) (monthly_returns, g).

(** The monthly returns of one simulation, lines 65 to 86. *)
Definition generate_returns (len_df : nat) : M (list R) :=
  monthly_returns <-
    np_random_normal (fin monthly_expected_return) monthly_volatility len_df ;;
  us <- with_rng (uniform_draws len_df) ;;
  let crash_months := map (fun u => Rltb u crash_probability) us in
  with_rng (simulate_market_crashes len_df crash_months monthly_returns).

(** The body of [for sim in range(num_simulations)], lines 55 to 103; the
    date index, built once at line 34, is built here at the start. *)
Definition simulation : M (DataFrame * list float) :=
  dates <- lift (date_range num_months) ;;
  modify_frame (fun _ => new_frame dates) ;;;
  first <- index0 ;;
  modify_frame (fun df =>
    set_Age (map (fun d => IZR starting_age + IZR (d - first) / 365.25)
                 (index df)) df) ;;;
  modify_frame (fun df =>
    set_Monthly_Income
      (map (fun age => (fin monthly_income
                        * power (1 + inflation_rate) (age - IZR starting_age))%float)
           (Age df)) df) ;;;
  modify_frame (fun df =>
    set_Monthly_Expenses
      (map (fun age => (fin monthly_expenses
                        * power (1 + inflation_rate) (age - IZR starting_age))%float)
           (Age df)) df) ;;;
  modify_frame (fun df =>
    set_Monthly_Investment
      (map (fun ie => (fst ie - snd ie)%float)
           (combine (Monthly_Income df) (Monthly_Expenses df))) df) ;;;
  df <- get_frame ;;
  monthly_returns <- generate_returns (length (index df)) ;;
  modify_frame (fun df => set_Portfolio_Value (map (fun _ => fin 0) (index df)) df) ;;;
  modify_frame (fun df =>
    snd (portfolio_loop monthly_returns (fin initial_portfolio) df)) ;;;
  trailing_returns <- lift (calculate_trailing_return monthly_returns 24) ;;
  df <- get_frame ;;
  ret (df, trailing_returns).

End Run.

End Plan.

(** ** Reference definitions used in the statements *)

(** The product of [f k] for [k] from [a] up to, and without, [a + n]. *)
Fixpoint prod_range (f : nat -> R) (a n : nat) : R :=
  match n with
  | O => 1
  | S k => f a * prod_range f (S a) k
  end.

(** The product of [1 + return[k]] over the [window] months before [i]. *)
Definition window_product (returns : list R) (window i : nat) : R :=
  prod_range (fun k => 1 + nth k returns 0) (i - window) window.

(** The trailing annualized return as the specification words it:
    [(1 + cumulative_return)^(12/window) - 1] with [cumulative_return] the
    product of [1 + return[k]] over the window, minus 1. *)
Definition annualized_return_spec (returns : list R) (window i : nat) : float :=
  let cumulative_return := window_product returns window i - 1 in
  (power (1 + cumulative_return) (12 / INR window) - fin 1)%float.

(** The portfolio update rule as the specification words it. *)
Definition update_rule_spec (prior_balance net_contribution : float)
    (monthly_return : R) : float :=
  let pre_value := (prior_balance + net_contribution)%float in
  if ge0 pre_value then (pre_value * fin (1 + monthly_return))%float
  else (pre_value * fin (1 + 0.05 / 12))%float.

(** The balance before month [i]: the initial investment, then the value of
    the month before. *)
Definition prior_balance (initial : float) (values : list float) (i : nat) : float :=
  match i with
  | O => initial
  | S k => nth k values nan
  end.

(** The value appended by iteration [i] of [calculate_trailing_return]. *)
Definition app_trailing_entry (returns : list R) (window i : nat) : float :=
  if (i <? window)%nat then nan
  else
    (power (1 + (prod (map (Rplus 1) (slice returns (i - window) i)) - 1))
           (12 / INR window) - fin 1)%float.

Definition plan_trailing_entry (returns : list R) (window i : nat) : float :=
  if (i <? window)%nat then nan
  else
    (power (1 + prod (map (Rplus 1) (slice returns (i - window) i)))
           (12 / INR window) - fin 1)%float.

(** Entry [i] of the trailing series exists and is a number, not nan. *)
Definition trailing_defined_at (returns : list R) (window i : nat) : Prop :=
  exists l v, App.calculate_trailing_return returns window = Ok l
              /\ nth_error l i = Some (Some v).

(** The DataFrame once the age and cashflow columns are assigned, lines 54
    to 59 of [app.py] and 59 to 62 of [plan.py]. *)
Definition cashflow_frame (start : Z) (income expenses inflation : R)
    (dates : list Z) : DataFrame :=
  let first := hd 0%Z dates in
  let age := map (fun d => IZR start + IZR (d - first) / 365.25) dates in
  let inc := map (fun a => (fin income * power (1 + inflation) (a - IZR start))%float) age in
  let exp := map (fun a => (fin expenses * power (1 + inflation) (a - IZR start))%float) age in
  {| index := dates; Age := age; Monthly_Income := inc; Monthly_Expenses := exp;
     Monthly_Investment := map (fun ie => (fst ie - snd ie)%float) (combine inc exp);
     Portfolio_Value := [] |}.

Definition app_cashflow_frame (params : App.Params) (dates : list Z) : DataFrame :=
  cashflow_frame (App.starting_age params) (App.monthly_income params)
    (App.monthly_expenses params) (App.inflation_rate params) dates.

Definition app_num_months (params : App.Params) : Z :=
  (App.retirement_age params - App.starting_age params) * 12.

(** A generator that always draws 0 from the normal law and 1/2 from the
    uniform one. *)
Definition constant_runtime : Runtime :=
  {| rng := unit;
     standard_normal := fun g => (0, g);
     random_sample := fun g => (1 / 2, g);
     negative_periods_raise := true |}.

Definition empty_state {RT : Runtime} (g : rng) : state :=
  {| frame := new_frame []; gen := g |}.

(** The age at month [i], line 54 of [app.py]. *)
Definition age_at (start : Z) (dates : list Z) (i : nat) : R :=
  IZR start + IZR (nth i dates 0%Z - hd 0%Z dates) / 365.25.

(** [monthly_expected_return], line 63 of [app.py]. *)
Definition app_monthly_expected_return (params : App.Params) : float :=
  (power (1 + App.annual_return_rate params) (1 / 12) - fin 1)%float.

(** The DataFrame returned by a run of [generate_simulation] that drew
    [monthly_returns]. *)
Definition app_final_frame (params : App.Params) (dates : list Z)
    (monthly_returns : list R) : DataFrame :=
  snd (App.portfolio_loop monthly_returns (fin (App.initial_investment params))
         (set_Portfolio_Value (map (fun _ => fin 0) dates)
            (app_cashflow_frame params dates))).

Definition app_month_ends (params : App.Params) : list Z :=
  Calendar.month_ends (Z.to_nat (app_num_months params)).

(** The parameters of the worked example of the specification. *)
Definition example_params (num_simulations : Z) : App.Params :=
  {| App.starting_age := 24; App.retirement_age := 26;
     App.monthly_income := 5000; App.monthly_expenses := 3500;
     App.annual_return_rate := 0; App.annual_volatility := 0;
     App.inflation_rate := 0; App.initial_investment := 50000;
     App.num_simulations := num_simulations |}.

(** A one-month DataFrame with expenses above income. *)
Definition overdrawn_frame : DataFrame :=
  {| index := [30%Z]; Age := [24];
     Monthly_Income := [Some 0]; Monthly_Expenses := [Some 100];
     Monthly_Investment := [Some (-100)]; Portfolio_Value := [Some 0] |}.

(** One year of simulation with a negative income entered in the form. *)
Definition negative_income_params : App.Params :=
  {| App.starting_age := 24; App.retirement_age := 25;
     App.monthly_income := -5000; App.monthly_expenses := 3500;
     App.annual_return_rate := 0.07; App.annual_volatility := 0.15;
     App.inflation_rate := 0.03; App.initial_investment := 50000;
     App.num_simulations := 1 |}.

(** The default parameters with a negative volatility. *)
Definition negative_volatility_params : App.Params :=
  {| App.starting_age := 24; App.retirement_age := 65;
     App.monthly_income := 5000; App.monthly_expenses := 3500;
     App.annual_return_rate := 0.07; App.annual_volatility := -0.15;
     App.inflation_rate := 0.03; App.initial_investment := 50000;
     App.num_simulations := 100 |}.

(** A generator whose state is a counter and whose deviates follow it. *)
Definition counter_runtime : Runtime :=
  {| rng := nat;
     standard_normal := fun g => (INR g, S g);
     random_sample := fun g => (1 / (INR g + 2), S g);
     negative_periods_raise := false |}.

(** The claim of C5 on one run: the run raises and nothing has been done,
    no column computed and no deviate drawn. *)
Definition fails_before_any_work {RT : Runtime} (params : App.Params)
    (s : state) : Prop :=
  exists e, App.generate_simulation params s = (Raise e, s).

(** What iteration [i] of the portfolio loop of [plan.py] stores. *)
Definition plan_update (i : nat) (current_portfolio contribution : float)
    (monthly_return : R) : float :=
  if (i =? 0)%nat then
    ((current_portfolio + contribution) * fin (1 + monthly_return))%float
  else
    (current_portfolio * fin (1 + monthly_return) + contribution)%float.

Definition plan_cashflow_frame (dates : list Z) : DataFrame :=
  cashflow_frame Plan.starting_age Plan.monthly_income Plan.monthly_expenses
    Plan.inflation_rate dates.

Definition plan_month_ends : list Z :=
  Calendar.month_ends (Z.to_nat Plan.num_months).

(** The returns of one simulation of [plan.py] and the generator left. *)
Definition plan_returns {RT : Runtime} (len_df : nat) (g : rng) : list R * rng :=
  let (monthly_returns, g1) :=
    normal_draws Plan.monthly_expected_return Plan.monthly_volatility len_df g in
  let (us, g2) := uniform_draws len_df g1 in
  Plan.simulate_market_crashes len_df
    (map (fun u => Rltb u Plan.crash_probability) us) monthly_returns g2.

Definition plan_final_frame (dates : list Z) (monthly_returns : list R)
  : DataFrame :=
  snd (Plan.portfolio_loop monthly_returns (fin Plan.initial_portfolio)
         (set_Portfolio_Value (map (fun _ => fin 0) dates)
            (plan_cashflow_frame dates))).

(** A generator that replays a given list of deviates. *)
Definition replay_runtime : Runtime :=
  {| rng := list R;
     standard_normal := fun g => (hd 0 g, tl g);
     random_sample := fun g => (hd 0 g, tl g);
     negative_periods_raise := false |}.

(** The generator after [k] normal deviates, and the [k]-th deviate to come. *)
Fixpoint advance {RT : Runtime} (g : rng) (k : nat) : rng :=
  match k with
  | O => g
  | S k' => advance (snd (standard_normal g)) k'
  end.

Definition deviate {RT : Runtime} (g : rng) (k : nat) : R :=
  fst (standard_normal (advance g k)).

(** Two months of DataFrame with a positive contribution. *)
Definition saver_frame : DataFrame :=
  {| index := [30%Z; 58%Z]; Age := [24; 24 + 28 / 365.25];
     Monthly_Income := [Some 500; Some 500];
     Monthly_Expenses := [Some 400; Some 400];
     Monthly_Investment := [Some 100; Some 100];
     Portfolio_Value := [Some 0; Some 0] |}.

(** Two months of DataFrame whose first contribution is nan. *)
Definition poisoned_frame : DataFrame :=
  {| index := [30%Z; 58%Z]; Age := [24; 24 + 28 / 365.25];
     Monthly_Income := [nan; Some 500];
     Monthly_Expenses := [Some 400; Some 400];
     Monthly_Investment := [nan; Some 100];
     Portfolio_Value := [Some 0; Some 0] |}.

(** The default parameters with an annual return below -100%. *)
Definition ruinous_return_params : App.Params :=
  {| App.starting_age := 24; App.retirement_age := 65;
     App.monthly_income := 5000; App.monthly_expenses := 3500;
     App.annual_return_rate := -2.5; App.annual_volatility := 0.15;
     App.inflation_rate := 0.03; App.initial_investment := 50000;
     App.num_simulations := 100 |}.

(** The default parameters with an inflation below -100%. *)
Definition deflation_params : App.Params :=
  {| App.starting_age := 24; App.retirement_age := 65;
     App.monthly_income := 5000; App.monthly_expenses := 3500;
     App.annual_return_rate := 0.07; App.annual_volatility := 0.15;
     App.inflation_rate := -1.5; App.initial_investment := 50000;
     App.num_simulations := 100 |}.

(** What a run of [generate_simulation] returns from the generator [g], when
    the monthly expected return is [r]. *)
Definition app_run_returns {RT : Runtime} (params : App.Params) (r : R)
    (g : rng) : list R :=
  fst (normal_draws r (App.annual_volatility params / sqrt 12)
         (length (app_month_ends params)) g).

Definition app_run_output {RT : Runtime} (params : App.Params) (r : R)
    (g : rng) : DataFrame * list float :=
  (app_final_frame params (app_month_ends params) (app_run_returns params r g),
   map (app_trailing_entry (app_run_returns params r g) App.default_window)
       (seq 0 (length (app_run_returns params r g)))).

(** ** The callback [update_graph] of app.py

    The figure and the HTML of the statistics are presentation; what is kept
    of them is the data they are built from: the batch, the eight numbers
    shown and the date of the retirement line, whose lookup
    [all_simulations[-1]] is the one place where the rendering can raise. *)

Module Dashboard.

(** The values of the form, as the callback receives them; the three rates
    are percentages. *)
Record Form : Type := {
  starting_age : Z;
  retirement_age : Z;
  monthly_income : R;
  monthly_expenses : R;
  annual_return : R;
  annual_volatility : R;
  inflation_rate : R;
  initial_investment : R;
  num_simulations : Z
}.

(** Lines 223 to 239. *)
Definition to_params (form : Form) : App.Params :=
  let annual_return := annual_return form / 100 in
  let annual_volatility := annual_volatility form / 100 in
  let inflation_rate := inflation_rate form / 100 in
  {| App.starting_age := starting_age form;
     App.retirement_age := retirement_age form;
     App.monthly_income := monthly_income form;
     App.monthly_expenses := monthly_expenses form;
     App.annual_return_rate := annual_return;
     App.annual_volatility := annual_volatility;
     App.inflation_rate := inflation_rate;
     App.initial_investment := initial_investment form;
     App.num_simulations := num_simulations form |}.

(** [column.iloc[-1]] and [list[-1]]. *)
Definition iloc_last {A : Type} (l : list A) : result A :=
  match rev l with
  | [] => Raise IndexError
  | x :: _ => Ok x
  end.

(** A list comprehension whose element expression may raise. *)
Fixpoint map_result {A B : Type} (f : A -> result B) (l : list A)
  : result (list B) :=
  match l with
  | [] => Ok []
  | x :: t => rbind (f x) (fun y => rbind (map_result f t) (fun ys => Ok (y :: ys)))
  end.

(** The numbers of an array, unless one of its entries is nan. *)
Fixpoint numbers (l : list float) : option (list R) :=
  match l with
  | [] => Some []
  | Some x :: t =>
      match numbers t with
      | Some xs => Some (x :: xs)
      | None => None
      end
  | None :: _ => None
  end.

Fixpoint insert (x : R) (l : list R) : list R :=
  match l with
  | [] => [x]
  | h :: t => if Rleb x h then x :: l else h :: insert x t
  end.

Fixpoint sort (l : list R) : list R :=
  match l with
  | [] => []
  | h :: t => insert h (sort t)
  end.

Definition sum (l : list R) : R := fold_right Rplus 0 l.

(** [np.mean]: nan for an empty array and for an array holding a nan. *)
Definition np_mean (l : list float) : float :=
  match numbers l with
  | Some (x :: xs) => Some (sum (x :: xs) / INR (length (x :: xs)))
  | _ => nan
  end.

(** [np.median]: the middle of the sorted array, the mean of the two middle
    entries when their number is even. *)
Definition np_median (l : list float) : float :=
  match numbers l with
  | Some (x :: xs) =>
      let a := sort (x :: xs) in
      let n := length a in
      if Nat.even n then Some ((nth (n / 2 - 1) a 0 + nth (n / 2) a 0) / 2)
      else Some (nth (n / 2) a 0)
  | _ => nan
  end.

(** [np.percentile(l, q)] with its default linear interpolation: the sorted
    array read at the position [(n - 1) * q / 100]; nan when an entry is
    nan.  An empty array has no entry to read: IndexError (a numpy that
    returns nan there leaves the IndexError to [all_simulations[-1]] in
    [update_graph], with the same outcome). *)
Definition np_percentile (l : list float) (q : R) : result float :=
  match l with
  | [] => Raise IndexError
  | _ :: _ =>
      match numbers l with
      | Some xs =>
          let a := sort xs in
          let n := length a in
          let h := (INR n - 1) * (q / 100) in
          let lo := Z.to_nat (Int_part h) in
          let hi := Nat.min (S lo) (n - 1) in
          Ok (Some (nth lo a 0 + (h - INR lo) * (nth hi a 0 - nth lo a 0)))
      | None => Ok nan
      end
  end.

Record Statistics : Type := {
  avg_final : float; avg_income : float;
  median_final : float; median_income : float;
  p10_final : float; p10_income : float;
  p90_final : float; p90_income : float
}.

Inductive Output : Type :=
| Prompt
| Rendered (all_simulations : list DataFrame)
    (all_trailing_returns : list (list float))
    (stats : Statistics) (retirement_date : Z).

Definition safe_withdrawal_rate : R := 0.04.

Section Run.

Context {RT : Runtime}.

Definition update_graph (n_clicks : Z) (form : Form) : M Output :=
  if (n_clicks =? 0)%Z then ret Prompt
  else
    let params := to_params form in
    batch <- App.simulate_batch params ;;
    let all_simulations := fst batch in
    let all_trailing_returns := snd batch in
    final_values <-
      lift (map_result (fun sim => iloc_last (Portfolio_Value sim))
              all_simulations) ;;
    let avg_final := np_mean final_values in
    let median_final := np_median final_values in
    p10_final <- lift (np_percentile final_values 10) ;;
    p90_final <- lift (np_percentile final_values 90) ;;
    let monthly_rate := safe_withdrawal_rate / 12 in
    let stats :=
      {| avg_final := avg_final;
         avg_income := (avg_final * fin monthly_rate)%float;
         median_final := median_final;
         median_income := (median_final * fin monthly_rate)%float;
         p10_final := p10_final;
         p10_income := (p10_final * fin monthly_rate)%float;
         p90_final := p90_final;
         p90_income := (p90_final * fin monthly_rate)%float |} in
    retirement_date <-
      lift (rbind (iloc_last all_simulations)
              (fun sim => iloc_last (index sim))) ;;
    ret (Rendered all_simulations all_trailing_returns stats retirement_date).

End Run.

End Dashboard.

(** The form left at its default values, with a number of simulations. *)
Definition default_form (num_simulations : Z) : Dashboard.Form :=
  {| Dashboard.starting_age := 24; Dashboard.retirement_age := 65;
     Dashboard.monthly_income := 5000; Dashboard.monthly_expenses := 3500;
     Dashboard.annual_return := 7; Dashboard.annual_volatility := 15;
     Dashboard.inflation_rate := 3; Dashboard.initial_investment := 50000;
     Dashboard.num_simulations := num_simulations |}.


(** The sorted array [a] read at the fractional position [h], as
    [np.percentile] does. *)
Definition read_at (a : list R) (h : R) : R :=
  let lo := Z.to_nat (Int_part h) in
  let hi := Nat.min (S lo) (length a - 1) in
  nth lo a 0 + (h - INR lo) * (nth hi a 0 - nth lo a 0).

(** The number held by a float, 0 for nan. *)
Definition number_of (v : float) : R :=
  match v with
  | Some x => x
  | None => 0
  end.

(** The default parameters with other cashflows and another initial
    investment. *)
Definition frugal_params : App.Params :=
  {| App.starting_age := 24; App.retirement_age := 65;
     App.monthly_income := 2000; App.monthly_expenses := 2500;
     App.annual_return_rate := 0.07; App.annual_volatility := 0.15;
     App.inflation_rate := 0.01; App.initial_investment := 0;
     App.num_simulations := 100 |}.

(** * Properties *)

(** ** Comparisons and powers *)

Lemma Rleb_true (x y : R) : Rleb x y = true <-> x <= y.
Proof. unfold Rleb. destruct (Rle_dec x y); split; intros; try easy. Qed.

Lemma Rleb_false (x y : R) : Rleb x y = false <-> y < x.
Proof.
  unfold Rleb. destruct (Rle_dec x y); split; intros; try easy; lra.
Qed.

Lemma Rltb_true (x y : R) : Rltb x y = true <-> x < y.
Proof. unfold Rltb. destruct (Rlt_dec x y); split; intros; try easy. Qed.

Lemma Rltb_false (x y : R) : Rltb x y = false <-> y <= x.
Proof.
  unfold Rltb. destruct (Rlt_dec x y); split; intros; try easy; lra.
Qed.

Lemma Reqb_true (x y : R) : Reqb x y = true <-> x = y.
Proof. unfold Reqb. destruct (Req_dec_T x y); split; intros; try easy. Qed.

Lemma Reqb_false (x y : R) : Reqb x y = false <-> x <> y.
Proof. unfold Reqb. destruct (Req_dec_T x y); split; intros; try easy. Qed.

Lemma power_pos (x y : R) : 0 < x -> power x y = Some (Rpower x y).
Proof.
  intros H. unfold power. apply Rltb_true in H. now rewrite H.
Qed.

Lemma Rpower_1_l (y : R) : Rpower 1 y = 1.
Proof. unfold Rpower. rewrite ln_1, Rmult_0_r. apply exp_0. Qed.

Lemma power_1_l (y : R) : power 1 y = Some 1.
Proof. rewrite power_pos by lra. now rewrite Rpower_1_l. Qed.

Lemma power_0_l (y : R) : 0 < y -> power 0 y = Some 0.
Proof.
  intros H. unfold power.
  assert (H0 : Rltb 0 0 = false) by (apply Rltb_false; lra).
  assert (H1 : Reqb 0 0 = true) by now apply Reqb_true.
  assert (H2 : Reqb y 0 = false) by (apply Reqb_false; lra).
  apply Rltb_true in H. now rewrite H0, H1, H2, H.
Qed.




Lemma power_nonneg_defined (x y : R) :
  0 <= x -> 0 < y -> exists v, power x y = Some v /\ 0 <= v.
Proof.
  intros Hx Hy. destruct Hx as [Hx | <-].
  - exists (Rpower x y). split; [now apply power_pos|].
    unfold Rpower. left. apply exp_pos.
  - exists 0. split; [now apply power_0_l | lra].
Qed.

Lemma Rpower_gt_1 (x y : R) : 1 < x -> 0 < y -> 1 < Rpower x y.
Proof.
  intros Hx Hy. unfold Rpower. rewrite <- exp_0.
  apply exp_increasing. apply Rmult_lt_0_compat; [exact Hy|].
  rewrite <- ln_1. apply ln_increasing; lra.
Qed.

Lemma Rpower_mono_exponent (x y z : R) :
  1 <= x -> y <= z -> Rpower x y <= Rpower x z.
Proof.
  intros Hx Hyz. unfold Rpower.
  assert (Hln : 0 <= ln x).
  { destruct Hx as [Hx | <-]; [|rewrite ln_1; lra].
    left. rewrite <- ln_1. apply ln_increasing; lra. }
  destruct (Rle_lt_or_eq_dec _ _ (Rmult_le_compat_r _ _ _ Hln Hyz)) as [Hlt | Heq].
  - left. now apply exp_increasing.
  - right. now rewrite Heq.
Qed.

(** ** Lists: positional assignment, slices, products *)

Lemma set_nth_length {A : Type} (l : list A) (i : nat) (v : A) :
  length (set_nth l i v) = length l.
Proof.
  revert i. induction l as [|h t IH]; intros [|i]; simpl; auto.
Qed.

Lemma nth_set_nth_eq {A : Type} (l : list A) (i : nat) (v d : A) :
  (i < length l)%nat -> nth i (set_nth l i v) d = v.
Proof.
  revert i. induction l as [|h t IH]; intros [|i] H; simpl in *; try lia; auto.
  apply IH. lia.
Qed.

Lemma nth_set_nth_neq {A : Type} (l : list A) (i k : nat) (v d : A) :
  k <> i -> nth k (set_nth l i v) d = nth k l d.
Proof.
  revert i k. induction l as [|h t IH]; intros [|i] [|k] H; simpl; auto; try lia.
Qed.

Lemma nth_map_seq {A : Type} (f : nat -> A) (a n i : nat) (d : A) :
  (i < n)%nat -> nth i (map f (seq a n)) d = f (a + i)%nat.
Proof.
  intros H.
  rewrite (nth_indep _ d (f 0%nat)) by now rewrite length_map, length_seq.
  rewrite map_nth. now rewrite seq_nth.
Qed.

Lemma fold_left_Rmult (l : list R) (x : R) :
  fold_left Rmult l x = x * prod l.
Proof.
  unfold prod. revert x. induction l as [|h t IH]; intros x; simpl.
  - lra.
  - rewrite IH, (IH (1 * h)). lra.
Qed.

Lemma prod_cons (h : R) (t : list R) : prod (h :: t) = h * prod t.
Proof. unfold prod at 1. simpl. rewrite fold_left_Rmult. lra. Qed.

Lemma prod_slice (returns : list R) (a n : nat) :
  (a + n <= length returns)%nat ->
  prod (map (Rplus 1) (slice returns a (a + n)))
  = prod_range (fun k => 1 + nth k returns 0) a n.
Proof.
  unfold slice. replace (a + n - a)%nat with n by lia.
  revert a. induction n as [|n IH]; intros a H; simpl.
  - reflexivity.
  - destruct (skipn a returns) as [|h t] eqn:E.
    + apply (f_equal (@length R)) in E. rewrite length_skipn in E.
      simpl in E. lia.
    + simpl. rewrite prod_cons.
      assert (Hh : h = nth a returns 0).
      { rewrite <- (Nat.add_0_r a) at 1. rewrite <- nth_skipn.
        now rewrite E. }
      assert (Ht : t = skipn (S a) returns).
      { replace (S a) with (1 + a)%nat by lia.
        rewrite <- skipn_skipn. now rewrite E. }
      rewrite Hh, Ht, IH by lia. reflexivity.
Qed.

(** ** The trailing annualized return *)

Lemma for_each_append (f : nat -> float)
    (body : list float -> nat -> result (list float)) (l : list nat)
    (acc : list float) :
  (forall a i, body a i = Ok (a ++ [f i])) ->
  for_each body l acc = Ok (acc ++ map f l).
Proof.
  intros Hb. revert acc. induction l as [|i l IH]; intros acc; simpl.
  - now rewrite app_nil_r.
  - rewrite Hb. simpl. rewrite IH, <- app_assoc. reflexivity.
Qed.

Lemma py_div_ok (x y : R) : y <> 0 -> py_div x y = Ok (x / y).
Proof. intros H. unfold py_div. apply Reqb_false in H. now rewrite H. Qed.

Lemma INR_window_neq_0 (window : nat) : (0 < window)%nat -> INR window <> 0.
Proof. intros H. apply not_0_INR. lia. Qed.

Lemma app_trailing_closed (returns : list R) (window : nat) :
  (0 < window)%nat ->
  App.calculate_trailing_return returns window
  = Ok (map (app_trailing_entry returns window) (seq 0 (length returns))).
Proof.
  intros Hw. unfold App.calculate_trailing_return.
  rewrite (for_each_append (app_trailing_entry returns window)); [reflexivity|].
  intros a i. unfold App.trailing_step, app_trailing_entry.
  destruct (i <? window)%nat; [reflexivity|].
  rewrite py_div_ok by now apply INR_window_neq_0. reflexivity.
Qed.

Lemma plan_trailing_closed (returns : list R) (window : nat) :
  (0 < window)%nat ->
  Plan.calculate_trailing_return returns window
  = Ok (map (plan_trailing_entry returns window) (seq 0 (length returns))).
Proof.
  intros Hw. unfold Plan.calculate_trailing_return.
  rewrite (for_each_append (plan_trailing_entry returns window)); [reflexivity|].
  intros a i. unfold Plan.trailing_step, plan_trailing_entry.
  destruct (i <? window)%nat; [reflexivity|].
  rewrite py_div_ok by now apply INR_window_neq_0. reflexivity.
Qed.

Lemma app_trailing_entry_window (returns : list R) (window i : nat) :
  (window <= i < length returns)%nat ->
  app_trailing_entry returns window i = annualized_return_spec returns window i.
Proof.
  intros [Hwi Hi]. unfold app_trailing_entry, annualized_return_spec, window_product.
  destruct (Nat.ltb_spec i window) as [Hlt | _]; [lia|].
  replace i with ((i - window) + window)%nat at 2 by lia.
  rewrite prod_slice by lia. reflexivity.
Qed.

(** In [app.py] the trailing annualized return at every [i >= window] is the
    compounding formula of the specification, over the [window] returns
    strictly before [i]. *)
Lemma app_trailing_return_formula (returns : list R) (window i : nat) :
  (0 < window)%nat -> (window <= i < length returns)%nat ->
  exists l, App.calculate_trailing_return returns window = Ok l
            /\ length l = length returns
            /\ nth i l nan = annualized_return_spec returns window i.
Proof.
  intros Hw Hi. eexists. split; [now apply app_trailing_closed|]. split.
  - now rewrite length_map, length_seq.
  - rewrite nth_map_seq by lia. simpl. now apply app_trailing_entry_window.
Qed.

Lemma nth_error_map_seq {A : Type} (f : nat -> A) (n i : nat) :
  (i < n)%nat -> nth_error (map f (seq 0 n)) i = Some (f i).
Proof.
  intros H. rewrite nth_error_map, nth_error_seq.
  destruct (Nat.ltb_spec i n); [reflexivity | lia].
Qed.

Lemma prod_map_zeros (l : list R) :
  (forall x, In x l -> x = 0) -> prod (map (Rplus 1) l) = 1.
Proof.
  induction l as [|h t IH]; intros H.
  - reflexivity.
  - simpl. rewrite prod_cons, IH by (intros x Hx; apply H; now right).
    rewrite (H h) by now left. lra.
Qed.

Lemma In_slice {A : Type} (x : A) (l : list A) (a b : nat) :
  In x (slice l a b) -> In x l.
Proof.
  unfold slice. intros H.
  rewrite <- (firstn_skipn a l). apply in_or_app. right.
  rewrite <- (firstn_skipn (b - a) (skipn a l)). apply in_or_app. now left.
Qed.

Lemma slice_repeat_zeros (x : R) (n a b : nat) :
  In x (slice (repeat 0 n) a b) -> x = 0.
Proof.
  intros H. apply In_slice in H. now apply repeat_spec in H.
Qed.

Lemma INR_24 : INR 24 = 24.
Proof. rewrite INR_IZR_INZ. reflexivity. Qed.

Lemma exponent_24 : 12 / INR 24 = 1 / 2.
Proof. rewrite INR_24. lra. Qed.

Lemma annualized_return_spec_zeros (n i : nat) :
  (24 <= i < n)%nat -> annualized_return_spec (repeat 0 n) 24 i = Some 0.
Proof.
  intros H. unfold annualized_return_spec, window_product.
  rewrite <- prod_slice by (rewrite repeat_length; lia).
  rewrite prod_map_zeros by (intros x; apply slice_repeat_zeros).
  replace (1 + (1 - 1)) with 1 by lra. rewrite power_1_l. simpl.
  f_equal. lra.
Qed.

(** C2: [plan.py] annualizes [1 + prod(1 + r)] and not [prod(1 + r)]: on 25
    months of zero return its trailing return for month 24 is
    [2^(1/2) - 1], where the compounding formula of the claim gives 0. *)
Theorem plan_trailing_return_not_compounded :
  exists l,
    Plan.calculate_trailing_return (repeat 0 25) 24 = Ok l
    /\ nth_error l 24 = Some (Some (Rpower 2 (1 / 2) - 1))
    /\ annualized_return_spec (repeat 0 25) 24 24 = Some 0
    /\ nth 24 l nan <> annualized_return_spec (repeat 0 25) 24 24.
Proof.
  assert (E : plan_trailing_entry (repeat 0 25) 24 24 = Some (Rpower 2 (1 / 2) - 1)).
  { unfold plan_trailing_entry.
    replace (24 <? 24)%nat with false by reflexivity.
    rewrite prod_map_zeros by (intros x; apply slice_repeat_zeros).
    rewrite exponent_24, power_pos by lra.
    replace (1 + 1) with 2 by lra. reflexivity. }
  eexists. split; [apply plan_trailing_closed; lia|].
  rewrite repeat_length. split; [|split].
  - rewrite nth_error_map_seq by lia. now rewrite E.
  - apply annualized_return_spec_zeros. lia.
  - rewrite nth_map_seq by lia. simpl Nat.add. rewrite E.
    rewrite annualized_return_spec_zeros by lia.
    intros H. injection H as H.
    pose proof (Rpower_gt_1 2 (1 / 2)). lra.
Qed.



Lemma trailing_defined_at_entry (returns : list R) (window i : nat) :
  (0 < window)%nat -> (i < length returns)%nat ->
  trailing_defined_at returns window i ->
  exists v, app_trailing_entry returns window i = Some v.
Proof.
  intros Hw Hi (l & v & Hl & Hv).
  rewrite app_trailing_closed in Hl by exact Hw.
  assert (E : l = map (app_trailing_entry returns window) (seq 0 (length returns)))
    by congruence.
  rewrite E, nth_error_map_seq in Hv by exact Hi.
  exists v. congruence.
Qed.




(** C6, the claim as stated fails: with the default window of 24 the entry
    of index [window - 1 = 23] is still the sentinel. *)
Lemma trailing_entry_window_minus_1_is_nan :
  (exists l, App.calculate_trailing_return (repeat 0 24) App.default_window = Ok l
             /\ nth_error l (App.default_window - 1) = Some nan)
  /\ ~ trailing_defined_at (repeat 0 24) App.default_window (App.default_window - 1).
Proof.
  unfold App.default_window. split.
  - eexists. split; [apply app_trailing_closed; lia|].
    rewrite repeat_length, nth_error_map_seq by lia. reflexivity.
  - intros H. apply trailing_defined_at_entry in H;
      [|lia | rewrite repeat_length; lia].
    destruct H as [v H]. unfold app_trailing_entry in H.
    replace (24 - 1 <? 24)%nat with true in H by reflexivity. discriminate.
Qed.

(** C6, amended: the first [window] entries of the trailing series (indices
    0 to [window - 1]) are the sentinel nan; every entry from index
    [window] onward holds the annualized return of the formula, which is a
    number whenever the product of [1 + r] over its window is not
    negative. *)
Theorem trailing_sentinel_prefix (returns : list R) (window : nat) :
  (0 < window)%nat ->
  exists l,
    App.calculate_trailing_return returns window = Ok l
    /\ length l = length returns
    /\ (forall i, (i < window)%nat -> (i < length returns)%nat ->
          nth_error l i = Some nan)
    /\ (forall i, (window <= i < length returns)%nat ->
          nth_error l i = Some (annualized_return_spec returns window i)
          /\ (0 <= window_product returns window i ->
              exists v, annualized_return_spec returns window i = Some v)).
Proof.
  intros Hw. eexists. split; [now apply app_trailing_closed|].
  split; [now rewrite length_map, length_seq|]. split.
  - intros i Hi Hlen. rewrite nth_error_map_seq by exact Hlen.
    unfold app_trailing_entry.
    destruct (Nat.ltb_spec i window); [reflexivity | lia].
  - intros i Hi. split.
    + rewrite nth_error_map_seq by lia.
      now rewrite app_trailing_entry_window.
    + intros Hp. unfold annualized_return_spec.
      assert (He : 0 < 12 / INR window).
      { apply Rdiv_lt_0_compat; [lra|]. apply lt_0_INR. lia. }
      destruct (power_nonneg_defined
                  (1 + (window_product returns window i - 1))
                  (12 / INR window)) as (v & -> & _); try lra.
      now exists (v - 1).
Qed.

Lemma trailing_sentinel_prefix_witness :
  (0 < 24)%nat
  /\ exists l,
       App.calculate_trailing_return (repeat 0 25) 24 = Ok l
       /\ length l = length (repeat 0 25)
       /\ (forall i, (i < 24)%nat -> (i < length (repeat 0 25))%nat ->
             nth_error l i = Some nan)
       /\ (forall i, (24 <= i < length (repeat 0 25))%nat ->
             nth_error l i = Some (annualized_return_spec (repeat 0 25) 24 i)
             /\ (0 <= window_product (repeat 0 25) 24 i ->
                 exists v, annualized_return_spec (repeat 0 25) 24 i = Some v)).
Proof.
  split; [lia | apply (trailing_sentinel_prefix (repeat 0 25) 24); lia].
Defined.

(** ** The portfolio loop *)

Lemma iloc_set_set_Portfolio_Value (i : nat) (v : float) (pv : list float)
    (df : DataFrame) :
  iloc_set_Portfolio_Value i v (set_Portfolio_Value pv df)
  = set_Portfolio_Value (set_nth pv i v) df.
Proof. reflexivity. Qed.

(** A loop whose iteration [i] stores [f i current_portfolio] at position
    [i] of the column and keeps it as the new [current_portfolio]. *)
Lemma portfolio_fold_invariant
    (step : float * DataFrame -> nat -> float * DataFrame)
    (f : nat -> float -> float) (df : DataFrame) (initial : float) :
  (forall cp pv i, (i < length pv)%nat ->
     step (cp, set_Portfolio_Value pv df) i
     = (f i cp, set_Portfolio_Value (set_nth pv i (f i cp)) df)) ->
  forall (pv0 : list float) (k : nat), (k <= length pv0)%nat ->
  exists pv,
    fold_left step (seq 0 k) (initial, set_Portfolio_Value pv0 df)
    = (prior_balance initial pv k, set_Portfolio_Value pv df)
    /\ length pv = length pv0
    /\ (forall i, (i < k)%nat ->
          nth i pv nan = f i (prior_balance initial pv i))
    /\ (forall i, (k <= i)%nat -> nth i pv nan = nth i pv0 nan).
Proof.
  intros Hstep pv0 k. induction k as [|k IH]; intros Hk.
  - exists pv0. simpl. repeat split; auto. intros i Hi. lia.
  - destruct IH as (pv & Hfold & Hlen & Hval & Hrest); [lia|].
    rewrite seq_S, fold_left_app, Hfold. simpl.
    rewrite Hstep by lia.
    set (v := f k (prior_balance initial pv k)).
    exists (set_nth pv k v).
    assert (Hprior : forall i, (i <= k)%nat ->
              prior_balance initial (set_nth pv k v) i = prior_balance initial pv i).
    { intros [|i] Hi; simpl; [reflexivity|].
      apply nth_set_nth_neq. lia. }
    repeat split.
    + f_equal. simpl. symmetry. apply nth_set_nth_eq. lia.
    + now rewrite set_nth_length.
    + intros i Hi. rewrite Hprior by lia.
      destruct (Nat.eq_dec i k) as [-> | Hne].
      * apply nth_set_nth_eq. lia.
      * rewrite nth_set_nth_neq by exact Hne. apply Hval. lia.
    + intros i Hi. rewrite nth_set_nth_neq by lia. apply Hrest. lia.
Qed.

Lemma app_portfolio_step_eq (monthly_returns : list R) (df : DataFrame)
    (cp : float) (pv : list float) (i : nat) :
  (i < length pv)%nat ->
  App.portfolio_step monthly_returns (cp, set_Portfolio_Value pv df) i
  = (update_rule_spec cp (nth i (Monthly_Investment df) nan) (nth i monthly_returns 0),
     set_Portfolio_Value
       (set_nth pv i
          (update_rule_spec cp (nth i (Monthly_Investment df) nan)
             (nth i monthly_returns 0))) df).
Proof.
  intros Hi. unfold App.portfolio_step, update_rule_spec, iloc_Monthly_Investment,
    App.flat_interest_rate.
  change (Monthly_Investment (set_Portfolio_Value pv df))
    with (Monthly_Investment df).
  destruct (i =? 0)%nat.
  - destruct (ge0 (cp + nth i (Monthly_Investment df) nan)%float);
      rewrite iloc_set_set_Portfolio_Value; simpl Portfolio_Value;
      rewrite nth_set_nth_eq by exact Hi; reflexivity.
  - destruct (ge0 (cp + nth i (Monthly_Investment df) nan)%float);
      rewrite iloc_set_set_Portfolio_Value; reflexivity.
Qed.

(** In [app.py] the portfolio loop applies the update rule of the
    specification at every month, the first one included. *)
Lemma app_portfolio_loop_rule (monthly_returns : list R) (initial : float)
    (df : DataFrame) :
  length (Portfolio_Value df) = length (index df) ->
  exists pv,
    App.portfolio_loop monthly_returns initial df
    = (prior_balance initial pv (length (index df)), set_Portfolio_Value pv df)
    /\ length pv = length (index df)
    /\ forall i, (i < length (index df))%nat ->
         nth i pv nan
         = update_rule_spec (prior_balance initial pv i)
             (nth i (Monthly_Investment df) nan) (nth i monthly_returns 0).
Proof.
  intros Hlen. unfold App.portfolio_loop.
  destruct (portfolio_fold_invariant (App.portfolio_step monthly_returns)
              (fun i cp => update_rule_spec cp (nth i (Monthly_Investment df) nan)
                             (nth i monthly_returns 0))
              df initial (app_portfolio_step_eq monthly_returns df)
              (Portfolio_Value df) (length (index df)))
    as (pv & Hfold & Hl & Hval & _); [lia|].
  exists pv.
  replace (set_Portfolio_Value (Portfolio_Value df) df) with df in Hfold
    by now destruct df.
  repeat split; [exact Hfold | congruence | exact Hval].
Qed.

(** ** Running [generate_simulation] *)

Section AppRun.

Context {RT : Runtime}.

Lemma normal_draws_length (loc scale : R) (size : nat) (g : rng) :
  length (fst (normal_draws loc scale size g)) = size.
Proof.
  revert g. induction size as [|k IH]; intros g; simpl; [reflexivity|].
  destruct (standard_normal g) as [z g1]. specialize (IH g1).
  destruct (normal_draws loc scale k g1) as [zs g2]. simpl in *. now rewrite IH.
Qed.

Lemma np_random_normal_frame (loc : float) (scale : R) (size : nat) (s : state) :
  frame (snd (np_random_normal loc scale size s)) = frame s.
Proof.
  unfold np_random_normal, lift, with_rng.
  destruct loc as [l|]; [|reflexivity].
  destruct (Rltb scale 0); [reflexivity|].
  now destruct (normal_draws l scale size (gen s)).
Qed.

Lemma np_random_normal_length (loc : float) (scale : R) (size : nat) (s : state)
    (rets : list R) (s1 : state) :
  np_random_normal loc scale size s = (Ok rets, s1) -> length rets = size.
Proof.
  unfold np_random_normal, lift, with_rng.
  destruct loc as [l|]; [|discriminate].
  destruct (Rltb scale 0); [discriminate|].
  pose proof (normal_draws_length l scale size (gen s)) as H.
  destruct (normal_draws l scale size (gen s)). intros E.
  injection E as <- _. exact H.
Qed.

(** [generate_simulation], stage by stage. *)
Lemma generate_simulation_unfold (params : App.Params) (s : state) :
  App.generate_simulation params s
  = match date_range (app_num_months params) with
    | Raise e => (Raise e, s)
    | Ok [] => (Raise IndexError, {| frame := new_frame []; gen := gen s |})
    | Ok (d :: ds) =>
        let dates := d :: ds in
        let df := app_cashflow_frame params dates in
        match App.draw_monthly_returns params (length dates)
                {| frame := df; gen := gen s |} with
        | (Raise e, s1) => (Raise e, s1)
        | (Ok monthly_returns, s1) =>
            let df1 :=
              snd (App.portfolio_loop monthly_returns
                     (fin (App.initial_investment params))
                     (set_Portfolio_Value (map (fun _ => fin 0) dates) (frame s1))) in
            match App.calculate_trailing_return monthly_returns App.default_window with
            | Ok tr => (Ok (df1, tr), {| frame := df1; gen := gen s1 |})
            | Raise e => (Raise e, {| frame := df1; gen := gen s1 |})
            end
        end
    end.
Proof.
  unfold App.generate_simulation, app_num_months.
  unfold bind at 1. unfold lift at 1.
  destruct (date_range _) as [[|d ds]|e]; try reflexivity.
  cbv beta iota zeta.
  unfold bind at 1. unfold modify_frame at 1.
  unfold bind at 1. unfold index0 at 1, bind at 1, get_frame at 1.
  cbn [frame gen new_frame index ret].
  unfold bind at 1. unfold modify_frame at 1.
  unfold bind at 1. unfold modify_frame at 1.
  unfold bind at 1. unfold modify_frame at 1.
  unfold bind at 1. unfold modify_frame at 1.
  unfold bind at 1. unfold get_frame at 1.
  unfold bind at 1.
  cbn [frame gen index set_Age set_Monthly_Income set_Monthly_Expenses
       set_Monthly_Investment new_frame Age Monthly_Income Monthly_Expenses
       Monthly_Investment Portfolio_Value].
  fold (app_cashflow_frame params (d :: ds)).
  change (App.draw_monthly_returns params (length (d :: ds)) ?s0)
    with (App.draw_monthly_returns params (length (d :: ds))
            {| frame := app_cashflow_frame params (d :: ds); gen := gen s |}).
  destruct (App.draw_monthly_returns params (length (d :: ds)) _)
    as [[rets|e] s1] eqn:Edraw; [|reflexivity].
  assert (Hfr : frame s1 = app_cashflow_frame params (d :: ds)).
  { pose proof (np_random_normal_frame
      (power (1 + App.annual_return_rate params) (1 / 12) - fin 1)%float
      (App.annual_volatility params / sqrt 12) (length (d :: ds))
      {| frame := app_cashflow_frame params (d :: ds); gen := gen s |}) as H.
    unfold App.draw_monthly_returns in Edraw. rewrite Edraw in H. exact H. }
  unfold bind at 1. unfold modify_frame at 1.
  unfold bind at 1. unfold modify_frame at 1.
  unfold bind at 1. unfold lift at 1.
  cbn [frame gen].
  rewrite Hfr.
  destruct (App.calculate_trailing_return rets App.default_window);
    reflexivity.
Qed.

End AppRun.

(** ** The date index and the cashflow columns *)

Lemma month_ends_length (n : nat) : length (Calendar.month_ends n) = n.
Proof. unfold Calendar.month_ends. now rewrite length_map, length_seq. Qed.

Lemma month_ends_nth (n i : nat) :
  (i < n)%nat -> nth i (Calendar.month_ends n) 0%Z = Calendar.month_end i.
Proof. intros H. unfold Calendar.month_ends. now rewrite nth_map_seq. Qed.

Lemma days_in_month_pos (y m : Z) : (0 < Calendar.days_in_month y m)%Z.
Proof.
  unfold Calendar.days_in_month.
  destruct m as [|p|p]; try lia.
  do 4 (try destruct p as [p|p|]); try destruct (Calendar.is_leap y); lia.
Qed.

Lemma month_length_pos (k : nat) : (0 < Calendar.month_length k)%Z.
Proof. apply days_in_month_pos. Qed.

Lemma month_end_increasing (k : nat) :
  (Calendar.month_end k < Calendar.month_end (S k))%Z.
Proof. simpl. pose proof (month_length_pos (S k)). lia. Qed.

Lemma month_end_monotone (i j : nat) :
  (i <= j)%nat -> (Calendar.month_end i <= Calendar.month_end j)%Z.
Proof.
  induction 1 as [|j _ IH]; [lia|].
  pose proof (month_end_increasing j). lia.
Qed.

Section DateRange.

Context {RT : Runtime}.

Lemma date_range_pos (n : Z) :
  (0 < n)%Z ->
  exists d ds, date_range n = Ok (d :: ds)
               /\ d :: ds = Calendar.month_ends (Z.to_nat n).
Proof.
  intros H. unfold date_range.
  destruct (Z.ltb_spec n 0) as [|_]; [lia|].
  destruct (Calendar.month_ends (Z.to_nat n)) as [|d ds] eqn:E.
  - apply (f_equal (@length Z)) in E. rewrite month_ends_length in E.
    simpl in E. lia.
  - now exists d, ds.
Qed.

Lemma date_range_nonpos (n : Z) :
  (n <= 0)%Z -> date_range n = Ok [] \/ date_range n = Raise ValueError.
Proof.
  intros H. unfold date_range.
  destruct (Z.ltb_spec n 0) as [Hn|Hn].
  - destruct negative_periods_raise; auto.
  - replace n with 0%Z by lia. now left.
Qed.

End DateRange.

Lemma combine_map_same {A B C : Type} (f : A -> B) (g : A -> C) (l : list A) :
  combine (map f l) (map g l) = map (fun x => (f x, g x)) l.
Proof. induction l as [|h t IH]; simpl; [reflexivity | now rewrite IH]. Qed.

Lemma nth_map_in_range {A B : Type} (f : A -> B) (l : list A) (i : nat)
    (d : A) (e : B) :
  (i < length l)%nat -> nth i (map f l) e = f (nth i l d).
Proof.
  intros H. rewrite (nth_indep _ e (f d)) by now rewrite length_map.
  apply map_nth.
Qed.

Lemma cashflow_frame_lengths (start : Z) (income expenses inflation : R)
    (dates : list Z) :
  let df := cashflow_frame start income expenses inflation dates in
  length (index df) = length dates
  /\ length (Age df) = length dates
  /\ length (Monthly_Income df) = length dates
  /\ length (Monthly_Expenses df) = length dates
  /\ length (Monthly_Investment df) = length dates.
Proof.
  simpl. rewrite combine_map_same. now rewrite !length_map.
Qed.

Lemma cashflow_frame_nth (start : Z) (income expenses inflation : R)
    (dates : list Z) (i : nat) :
  (i < length dates)%nat ->
  let df := cashflow_frame start income expenses inflation dates in
  let growth := power (1 + inflation) (age_at start dates i - IZR start) in
  nth i (Age df) 0 = age_at start dates i
  /\ nth i (Monthly_Income df) nan = (fin income * growth)%float
  /\ nth i (Monthly_Expenses df) nan = (fin expenses * growth)%float
  /\ nth i (Monthly_Investment df) nan
     = (fin income * growth - fin expenses * growth)%float.
Proof.
  intros Hi. cbv zeta. unfold cashflow_frame.
  cbn [Age Monthly_Income Monthly_Expenses Monthly_Investment].
  rewrite combine_map_same, !map_map.
  rewrite !(nth_map_in_range _ dates i 0%Z) by exact Hi.
  unfold age_at. cbn [fst snd]. repeat split; reflexivity.
Qed.

(** ** The draw of the monthly returns *)

Lemma sqrt_12_pos : 0 < sqrt 12.
Proof. apply sqrt_lt_R0. lra. Qed.

Section AppDraw.

Context {RT : Runtime}.

Lemma normal_draws_zero_scale (loc : R) (size : nat) (g : rng) :
  fst (normal_draws loc 0 size g) = repeat loc size.
Proof.
  revert g. induction size as [|k IH]; intros g; simpl; [reflexivity|].
  destruct (standard_normal g) as [z g1]. specialize (IH g1).
  destruct (normal_draws loc 0 k g1) as [zs g2]. simpl in *.
  rewrite IH. f_equal. lra.
Qed.

Lemma app_monthly_expected_return_defined (params : App.Params) :
  -1 <= App.annual_return_rate params ->
  exists r, app_monthly_expected_return params = Some r.
Proof.
  intros Ha. unfold app_monthly_expected_return.
  destruct (power_nonneg_defined (1 + App.annual_return_rate params) (1 / 12))
    as (v & -> & _); try lra.
  now exists (v - 1).
Qed.

Lemma draw_monthly_returns_ok (params : App.Params) (size : nat) (s : state)
    (r : R) :
  app_monthly_expected_return params = Some r ->
  0 <= App.annual_volatility params ->
  App.draw_monthly_returns params size s
  = (Ok (fst (normal_draws r (App.annual_volatility params / sqrt 12) size (gen s))),
     {| frame := frame s;
        gen := snd (normal_draws r (App.annual_volatility params / sqrt 12)
                      size (gen s)) |}).
Proof.
  intros Hr Hv. unfold App.draw_monthly_returns.
  fold (app_monthly_expected_return params). rewrite Hr.
  unfold np_random_normal.
  assert (Hs : Rltb (App.annual_volatility params / sqrt 12) 0 = false).
  { apply Rltb_false. apply Rmult_le_pos; [exact Hv|].
    left. apply Rinv_0_lt_compat, sqrt_12_pos. }
  rewrite Hs. unfold with_rng.
  now destruct (normal_draws r _ size (gen s)).
Qed.

Lemma draw_monthly_returns_negative_volatility (params : App.Params)
    (size : nat) (s : state) :
  App.annual_volatility params < 0 ->
  exists e, App.draw_monthly_returns params size s = (Raise e, s).
Proof.
  intros Hv. unfold App.draw_monthly_returns, np_random_normal, lift.
  destruct (power _ _ - fin 1)%float as [l|]; [|now exists TypeError].
  assert (Hs : Rltb (App.annual_volatility params / sqrt 12) 0 = true).
  { apply Rltb_true. unfold Rdiv.
    pose proof (Rinv_0_lt_compat _ sqrt_12_pos). nra. }
  rewrite Hs. now exists ValueError.
Qed.

(** A run with an increasing retirement age, a volatility that is not
    negative and an annual return of at least -100% returns. *)
Lemma generate_simulation_ok (params : App.Params) (s : state) :
  (App.starting_age params < App.retirement_age params)%Z ->
  0 <= App.annual_volatility params ->
  -1 <= App.annual_return_rate params ->
  exists r monthly_returns g',
    app_monthly_expected_return params = Some r
    /\ normal_draws r (App.annual_volatility params / sqrt 12)
         (length (app_month_ends params)) (gen s) = (monthly_returns, g')
    /\ App.generate_simulation params s
       = (Ok (app_final_frame params (app_month_ends params) monthly_returns,
              map (app_trailing_entry monthly_returns App.default_window)
                  (seq 0 (length monthly_returns))),
          {| frame := app_final_frame params (app_month_ends params) monthly_returns;
             gen := g' |}).
Proof.
  intros Hage Hvol Hret.
  destruct (app_monthly_expected_return_defined params Hret) as [r Hr].
  destruct (date_range_pos (app_num_months params)) as (d & ds & Hd & Hds);
    [unfold app_num_months; lia|].
  fold (app_month_ends params) in Hds.
  destruct (normal_draws r (App.annual_volatility params / sqrt 12)
              (length (app_month_ends params)) (gen s))
    as [monthly_returns g'] eqn:Edraw.
  exists r, monthly_returns, g'. split; [exact Hr|]. split; [exact Edraw|].
  rewrite generate_simulation_unfold, Hd. cbv zeta.
  rewrite (draw_monthly_returns_ok params _ _ r Hr Hvol).
  cbn [frame gen]. rewrite Hds, Edraw. cbn [fst snd].
  rewrite app_trailing_closed by (unfold App.default_window; lia).
  reflexivity.
Qed.

End AppDraw.

(** ** The portfolio values of a run *)

Lemma update_rule_spec_nonneg (b c r : R) :
  0 <= b + c ->
  update_rule_spec (Some b) (Some c) r = Some ((b + c) * (1 + r)).
Proof.
  intros H. unfold update_rule_spec. simpl.
  apply Rleb_true in H. now rewrite H.
Qed.

Lemma update_rule_spec_neg (b c r : R) :
  b + c < 0 ->
  update_rule_spec (Some b) (Some c) r = Some ((b + c) * (1 + 0.05 / 12)).
Proof.
  intros H. unfold update_rule_spec. simpl.
  apply Rleb_false in H. now rewrite H.
Qed.

Lemma app_final_frame_rule (params : App.Params) (dates : list Z)
    (monthly_returns : list R) :
  exists pv,
    app_final_frame params dates monthly_returns
    = set_Portfolio_Value pv (app_cashflow_frame params dates)
    /\ length pv = length dates
    /\ forall i, (i < length dates)%nat ->
         nth i pv nan
         = update_rule_spec
             (prior_balance (fin (App.initial_investment params)) pv i)
             (nth i (Monthly_Investment (app_cashflow_frame params dates)) nan)
             (nth i monthly_returns 0).
Proof.
  unfold app_final_frame.
  destruct (app_portfolio_loop_rule monthly_returns
              (fin (App.initial_investment params))
              (set_Portfolio_Value (map (fun _ => fin 0) dates)
                 (app_cashflow_frame params dates)))
    as (pv & Hloop & Hlen & Hval).
  { simpl. now rewrite length_map. }
  exists pv. rewrite Hloop. simpl in Hlen, Hval.
  repeat split; [exact Hlen | exact Hval].
Qed.

(** In [app.py], every month of a simulated path follows the update rule of
    the specification: the contribution is added to the prior balance, then
    the month's return is applied, or the flat interest when the sum is
    negative; the first month is no exception. *)
Lemma app_portfolio_value_rule {RT : Runtime} (params : App.Params) (s : state) :
  (App.starting_age params < App.retirement_age params)%Z ->
  0 <= App.annual_volatility params ->
  -1 <= App.annual_return_rate params ->
  exists df tr s' r monthly_returns,
    App.generate_simulation params s = (Ok (df, tr), s')
    /\ app_monthly_expected_return params = Some r
    /\ monthly_returns
       = fst (normal_draws r (App.annual_volatility params / sqrt 12)
                (Z.to_nat (app_num_months params)) (gen s))
    /\ df = set_Portfolio_Value (Portfolio_Value df)
              (app_cashflow_frame params (app_month_ends params))
    /\ length (Portfolio_Value df) = Z.to_nat (app_num_months params)
    /\ forall i, (i < Z.to_nat (app_num_months params))%nat ->
         nth i (Portfolio_Value df) nan
         = update_rule_spec
             (prior_balance (fin (App.initial_investment params))
                (Portfolio_Value df) i)
             (nth i (Monthly_Investment df) nan)
             (nth i monthly_returns 0).
Proof.
  intros Hage Hvol Hret.
  destruct (generate_simulation_ok params s Hage Hvol Hret)
    as (r & rets & g' & Hr & Hdraw & Hrun).
  destruct (app_final_frame_rule params (app_month_ends params) rets)
    as (pv & Hdf & Hlen & Hval).
  unfold app_month_ends in Hlen, Hval, Hdraw.
  rewrite month_ends_length in Hlen, Hval, Hdraw.
  do 3 eexists. exists r, rets. split; [exact Hrun|].
  split; [exact Hr|]. split; [now rewrite Hdraw|].
  rewrite Hdf. cbn [Portfolio_Value Monthly_Investment set_Portfolio_Value].
  split; [reflexivity|]. split; [exact Hlen | exact Hval].
Qed.

(** With no inflation, no return and no volatility the portfolio grows by
    the same contribution every month. *)
Lemma constant_contribution_path {RT : Runtime} (params : App.Params) (s : state) :
  (App.starting_age params < App.retirement_age params)%Z ->
  App.inflation_rate params = 0 ->
  App.annual_return_rate params = 0 ->
  App.annual_volatility params = 0 ->
  0 <= App.initial_investment params ->
  0 <= App.monthly_income params - App.monthly_expenses params ->
  exists df tr s',
    App.generate_simulation params s = (Ok (df, tr), s')
    /\ length (Portfolio_Value df) = Z.to_nat (app_num_months params)
    /\ forall i, (i < Z.to_nat (app_num_months params))%nat ->
         nth i (Portfolio_Value df) nan
         = Some (App.initial_investment params
                 + (App.monthly_income params - App.monthly_expenses params)
                   * (INR i + 1)).
Proof.
  intros Hage Hinf Hret Hvol Hinit Hc.
  destruct (app_portfolio_value_rule params s) as
    (df & tr & s' & r & rets & Hrun & Hr & Hrets & Hdf & Hlen & Hval);
    try lra; [exact Hage|].
  set (n := Z.to_nat (app_num_months params)) in *.
  assert (Er : r = 1 - 1).
  { unfold app_monthly_expected_return in Hr. rewrite Hret in Hr.
    replace (1 + 0) with 1 in Hr by lra. rewrite power_1_l in Hr.
    unfold fin, sub, lift2 in Hr. congruence. }
  assert (Erets : forall i, (i < n)%nat -> nth i rets 0 = 0).
  { intros i Hi. rewrite Hrets, Hvol.
    replace (0 / sqrt 12) with 0 by (unfold Rdiv; now rewrite Rmult_0_l).
    rewrite normal_draws_zero_scale.
    rewrite (nth_indep _ 0 r) by (rewrite repeat_length; lia).
    rewrite nth_repeat. lra. }
  assert (Einv : forall i, (i < n)%nat ->
            nth i (Monthly_Investment df) nan
            = Some (App.monthly_income params * 1
                    - App.monthly_expenses params * 1)).
  { intros i Hi. rewrite Hdf.
    cbn [Monthly_Investment set_Portfolio_Value]. unfold app_cashflow_frame.
    pose proof (cashflow_frame_nth (App.starting_age params)
                  (App.monthly_income params) (App.monthly_expenses params)
                  (App.inflation_rate params) (app_month_ends params) i) as H.
    cbv zeta in H. destruct H as (_ & _ & _ & H).
    { unfold app_month_ends. now rewrite month_ends_length. }
    rewrite H, Hinf. replace (1 + 0) with 1 by lra. rewrite power_1_l.
    reflexivity. }
  exists df, tr, s'. split; [exact Hrun|]. split; [exact Hlen|].
  induction i as [|i IH]; intros Hi.
  - rewrite Hval, Einv, Erets by lia. cbn [prior_balance].
    unfold fin. rewrite update_rule_spec_nonneg by lra.
    f_equal. cbn [INR]. lra.
  - rewrite Hval, Einv, Erets by lia. cbn [prior_balance].
    rewrite IH by lia. pose proof (pos_INR i).
    rewrite update_rule_spec_nonneg by nra.
    f_equal. rewrite S_INR. lra.
Qed.

(** C8: the worked example.  The path has 24 months and its portfolio value
    at month [i] is [50000 + 1500 * (i + 1)]: 51500, 53000, ..., 86000. *)
Theorem example_path {RT : Runtime} (num_simulations : Z) (s : state) :
  exists df tr s',
    App.generate_simulation (example_params num_simulations) s = (Ok (df, tr), s')
    /\ length (Portfolio_Value df) = 24%nat
    /\ (forall i, (i < 24)%nat ->
          nth i (Portfolio_Value df) nan = Some (50000 + 1500 * (INR i + 1)))
    /\ nth 0 (Portfolio_Value df) nan = Some 51500
    /\ nth 1 (Portfolio_Value df) nan = Some 53000
    /\ nth 23 (Portfolio_Value df) nan = Some 86000.
Proof.
  destruct (constant_contribution_path (example_params num_simulations) s)
    as (df & tr & s' & Hrun & Hlen & Hval);
    try reflexivity; try (cbn [example_params App.initial_investment
      App.monthly_income App.monthly_expenses]; lra).
  change (Z.to_nat (app_num_months (example_params num_simulations)))
    with 24%nat in *.
  cbn [example_params App.initial_investment App.monthly_income
       App.monthly_expenses] in Hval.
  assert (Hall : forall i, (i < 24)%nat ->
            nth i (Portfolio_Value df) nan = Some (50000 + 1500 * (INR i + 1))).
  { intros i Hi. rewrite Hval by exact Hi. f_equal. lra. }
  exists df, tr, s'. split; [exact Hrun|]. split; [exact Hlen|].
  split; [exact Hall|].
  repeat split.
  - rewrite Hall by lia. f_equal. cbn [INR]. lra.
  - rewrite Hall by lia. f_equal. cbn [INR]. lra.
  - rewrite Hall by lia. f_equal. rewrite INR_IZR_INZ.
    change (Z.of_nat 23) with 23%Z. lra.
Qed.

(** C10: in the portfolio loop of [generate_simulation], a negative prior
    balance with a contribution that is not positive gives a negative
    [pre_value], takes the flat-interest branch and yields
    [pre_value * (1 + 0.05/12) < pre_value < 0]; hence the portfolio stays
    negative for as long as the contributions stay non-positive. *)
Theorem negative_balance_grows (monthly_returns : list R) (initial : float)
    (df : DataFrame) (i : nat) (b c : R) :
  length (Portfolio_Value df) = length (index df) ->
  (i < length (index df))%nat ->
  let pv := Portfolio_Value (snd (App.portfolio_loop monthly_returns initial df)) in
  prior_balance initial pv i = Some b -> b < 0 ->
  nth i (Monthly_Investment df) nan = Some c -> c <= 0 ->
  b + c < 0
  /\ nth i pv nan = Some ((b + c) * (1 + 0.05 / 12))
  /\ (b + c) * (1 + 0.05 / 12) < b + c
  /\ forall j, (i <= j < length (index df))%nat ->
       (forall k, (i <= k <= j)%nat ->
          exists ck, nth k (Monthly_Investment df) nan = Some ck /\ ck <= 0) ->
       exists v, nth j pv nan = Some v /\ v < 0.
Proof.
  intros Hlen Hi pv Hb Hneg Hc Hcn.
  destruct (app_portfolio_loop_rule monthly_returns initial df Hlen)
    as (pv' & Hloop & Hl & Hval).
  assert (Epv : pv = pv') by (unfold pv; now rewrite Hloop).
  rewrite Epv in *. clear Epv pv Hloop.
  assert (Hstep : forall k bk ck, (k < length (index df))%nat ->
            prior_balance initial pv' k = Some bk -> bk < 0 ->
            nth k (Monthly_Investment df) nan = Some ck -> ck <= 0 ->
            nth k pv' nan = Some ((bk + ck) * (1 + 0.05 / 12))).
  { intros k bk ck Hk Hbk Hnk Hck Hcnk.
    rewrite Hval, Hbk, Hck by exact Hk. apply update_rule_spec_neg. lra. }
  split; [lra|]. split; [now apply Hstep|]. split; [nra|].
  intros j Hj. induction j as [|j IH]; intros Hcs.
  - assert (i = 0)%nat as -> by lia.
    exists ((b + c) * (1 + 0.05 / 12)). split; [now apply Hstep | nra].
  - destruct (Nat.eq_dec i (S j)) as [<- | Hne].
    + exists ((b + c) * (1 + 0.05 / 12)). split; [now apply Hstep | nra].
    + destruct IH as (v & Hv & Hvn); [lia | intros k Hk; apply Hcs; lia|].
      destruct (Hcs (S j)) as (ck & Hck & Hckn); [lia|].
      exists ((v + ck) * (1 + 0.05 / 12)). split; [|nra].
      apply (Hstep (S j) v ck); [lia | exact Hv | exact Hvn | exact Hck | exact Hckn].
Qed.

Lemma negative_balance_grows_witness :
  let pv := Portfolio_Value
              (snd (App.portfolio_loop [0.01] (Some (-1000)) overdrawn_frame)) in
  -1000 + -100 < 0
  /\ nth 0 pv nan = Some ((-1000 + -100) * (1 + 0.05 / 12))
  /\ (-1000 + -100) * (1 + 0.05 / 12) < -1000 + -100
  /\ forall j, (0 <= j < length (index overdrawn_frame))%nat ->
       (forall k, (0 <= k <= j)%nat ->
          exists ck, nth k (Monthly_Investment overdrawn_frame) nan = Some ck
                     /\ ck <= 0) ->
       exists v, nth j pv nan = Some v /\ v < 0.
Proof.
  apply (negative_balance_grows [0.01] (Some (-1000)) overdrawn_frame 0
           (-1000) (-100)).
  - reflexivity.
  - simpl. lia.
  - reflexivity.
  - lra.
  - reflexivity.
  - lra.
Defined.

(** ** The crash injection of [plan.py] *)

Section Crash.

Context {RT : Runtime}.

Lemma recovery_step_spec (len_df i recovery_months : nat)
    (monthly_returns : list R) (g : rng) (j : nat) :
  let r := Plan.recovery_step len_df i recovery_months (monthly_returns, g) j in
  length (fst r) = length monthly_returns
  /\ forall k, k <> (i + j)%nat -> nth k (fst r) 0 = nth k monthly_returns 0.
Proof.
  unfold Plan.recovery_step.
  destruct (i + j <? len_df)%nat; [|now split].
  destruct (normal_draws
              (Plan.monthly_expected_return * (INR j / INR recovery_months))
              (Plan.monthly_volatility * 1.5) 1 g) as [draw g'].
  simpl. split; [apply set_nth_length|].
  intros k Hk. now apply nth_set_nth_neq.
Qed.

Lemma recovery_fold_spec (len_df i recovery_months : nat) (js : list nat)
    (monthly_returns : list R) (g : rng) :
  (forall j, In j js -> (1 <= j < recovery_months)%nat) ->
  let r := fold_left (Plan.recovery_step len_df i recovery_months) js
             (monthly_returns, g) in
  length (fst r) = length monthly_returns
  /\ forall k, (k <= i \/ i + recovery_months <= k)%nat ->
       nth k (fst r) 0 = nth k monthly_returns 0.
Proof.
  revert monthly_returns g.
  induction js as [|j js IH]; intros monthly_returns g Hjs; cbn [fold_left].
  - split; auto.
  - assert (Hj : (1 <= j < recovery_months)%nat) by (apply Hjs; now left).
    assert (Hjs' : forall j', In j' js -> (1 <= j' < recovery_months)%nat)
      by (intros j' H; apply Hjs; now right).
    destruct (recovery_step_spec len_df i recovery_months monthly_returns g j)
      as [Hlen1 Hnth1].
    destruct (Plan.recovery_step len_df i recovery_months (monthly_returns, g) j)
      as [rets1 g1].
    simpl in Hlen1, Hnth1.
    destruct (IH rets1 g1 Hjs') as [Hlen Hnth].
    cbv zeta. split; [now rewrite Hlen|].
    intros k Hk. rewrite Hnth by exact Hk. apply Hnth1. lia.
Qed.

Lemma crash_step_no_crash (len_df : nat) (crash_months : list bool)
    (st : list R * rng) (i : nat) :
  nth i crash_months false = false ->
  Plan.crash_step len_df crash_months st i = st.
Proof.
  intros H. unfold Plan.crash_step. destruct st as [rets g]. now rewrite H.
Qed.

Lemma crash_step_spec (len_df : nat) (crash_months : list bool)
    (monthly_returns : list R) (g : rng) (i : nat) :
  let r := Plan.crash_step len_df crash_months (monthly_returns, g) i in
  length (fst r) = length monthly_returns
  /\ (forall k, (k < i \/ i + Plan.crash_recovery_months <= k)%nat ->
        nth k (fst r) 0 = nth k monthly_returns 0)
  /\ (nth i crash_months false = true -> (i < length monthly_returns)%nat ->
        nth i (fst r) 0 = Plan.crash_return).
Proof.
  unfold Plan.crash_step.
  destruct (nth i crash_months false).
  - set (rm := Nat.min Plan.crash_recovery_months (len_df - i)).
    assert (Hrm : (rm <= Plan.crash_recovery_months)%nat) by apply Nat.le_min_l.
    destruct (recovery_fold_spec len_df i rm (seq 1 (rm - 1))
                (set_nth monthly_returns i Plan.crash_return) g)
      as [Hlen Hnth].
    { intros j Hj. apply in_seq in Hj. lia. }
    cbv zeta in Hlen, Hnth. split; [|split].
    + now rewrite Hlen, set_nth_length.
    + intros k Hk. rewrite Hnth by lia. apply nth_set_nth_neq.
      unfold Plan.crash_recovery_months in Hk. lia.
    + intros _ Hi. rewrite Hnth by lia. now apply nth_set_nth_eq.
  - simpl. repeat split; auto. discriminate.
Qed.

Lemma crash_fold_spec (len_df : nat) (crash_months : list bool)
    (monthly_returns : list R) (g : rng) (m : nat) :
  let r := fold_left (Plan.crash_step len_df crash_months) (seq 0 m)
             (monthly_returns, g) in
  length (fst r) = length monthly_returns
  /\ forall i, (i < m)%nat -> (i < length monthly_returns)%nat ->
       nth i crash_months false = true ->
       nth i (fst r) 0 = Plan.crash_return.
Proof.
  induction m as [|m IH]; cbv zeta.
  - simpl. split; [reflexivity | intros i Hi; lia].
  - rewrite seq_S, fold_left_app. simpl.
    destruct (fold_left _ (seq 0 m) _) as [rets g1] eqn:E.
    cbv zeta in IH. simpl in IH. destruct IH as [Hlen Hkeep].
    destruct (crash_step_spec len_df crash_months rets g1 m)
      as (Hlen' & Hother & Hset).
    split; [congruence|].
    intros i Hi Hil Hc. destruct (Nat.eq_dec i m) as [-> | Hne].
    + apply Hset; [exact Hc | now rewrite Hlen].
    + rewrite Hother by lia. apply Hkeep; [lia | exact Hil | exact Hc].
Qed.

End Crash.

(** C3: after the crash injection has run over all months in increasing
    order, every month marked as a crash month holds [crash_return], be it
    inside the recovery window of an earlier crash; and the processing of a
    crash at month [i] leaves every month before [i] and every month from
    [i + crash_recovery_months] on unchanged, and the length of the series
    too. *)
Theorem crash_months_hold_crash_return {RT : Runtime} (len_df : nat)
    (crash_months : list bool) (monthly_returns : list R) (g : rng) :
  length monthly_returns = len_df ->
  let final :=
    fst (Plan.simulate_market_crashes len_df crash_months monthly_returns g) in
  length final = len_df
  /\ (forall i, (i < len_df)%nat -> nth i crash_months false = true ->
        nth i final 0 = Plan.crash_return)
  /\ (forall i rets g0, length rets = len_df -> (i < len_df)%nat ->
        nth i crash_months false = true ->
        let after := fst (Plan.crash_step len_df crash_months (rets, g0) i) in
        length after = len_df
        /\ nth i after 0 = Plan.crash_return
        /\ forall k, (k < i \/ i + Plan.crash_recovery_months <= k)%nat ->
             nth k after 0 = nth k rets 0).
Proof.
  intros Hlen. cbv zeta. unfold Plan.simulate_market_crashes.
  destruct (crash_fold_spec len_df crash_months monthly_returns g len_df)
    as [Hl Hkeep].
  split; [congruence|]. split.
  - intros i Hi Hc. apply Hkeep; [exact Hi | lia | exact Hc].
  - intros i rets g0 Hr Hi Hc.
    destruct (crash_step_spec len_df crash_months rets g0 i)
      as (Hl' & Hother & Hset).
    split; [congruence|]. split; [apply Hset; [exact Hc | lia] | exact Hother].
Qed.

Lemma crash_months_hold_crash_return_witness :
  let final :=
    fst (@Plan.simulate_market_crashes constant_runtime 3
           [true; true; false] [0; 0; 0] tt) in
  length final = 3%nat
  /\ (forall i, (i < 3)%nat -> nth i [true; true; false] false = true ->
        nth i final 0 = Plan.crash_return)
  /\ (forall i rets g0, length rets = 3%nat -> (i < 3)%nat ->
        nth i [true; true; false] false = true ->
        let after :=
          fst (@Plan.crash_step constant_runtime 3 [true; true; false]
                 (rets, g0) i) in
        length after = 3%nat
        /\ nth i after 0 = Plan.crash_return
        /\ forall k, (k < i \/ i + Plan.crash_recovery_months <= k)%nat ->
             nth k after 0 = nth k rets 0).
Proof.
  apply (@crash_months_hold_crash_return constant_runtime 3
           [true; true; false] [0; 0; 0] tt).
  reflexivity.
Defined.

(** ** Income and expenses over time *)

Lemma month_ends_hd (n : nat) :
  (0 < n)%nat -> hd 0%Z (Calendar.month_ends n) = Calendar.month_end 0.
Proof.
  intros H. destruct n as [|n]; [lia|]. reflexivity.
Qed.

Lemma elapsed_years (start : Z) (n i : nat) :
  (i < n)%nat ->
  age_at start (Calendar.month_ends n) i - IZR start
  = IZR (Calendar.month_end i - Calendar.month_end 0) / 365.25.
Proof.
  intros H. unfold age_at.
  rewrite month_ends_nth by exact H. rewrite month_ends_hd by lia. lra.
Qed.

Lemma elapsed_years_monotone (i j : nat) :
  (i <= j)%nat ->
  IZR (Calendar.month_end i - Calendar.month_end 0) / 365.25
  <= IZR (Calendar.month_end j - Calendar.month_end 0) / 365.25.
Proof.
  intros H. apply month_end_monotone in H.
  apply Rmult_le_compat_r; [lra|]. apply IZR_le. lia.
Qed.

(** The inflated amount of month [i] when the base [1 + inflation] is
    positive. *)
Lemma inflated_amount (params : App.Params) (amount : R) (i : nat) :
  (i < Z.to_nat (app_num_months params))%nat ->
  0 < 1 + App.inflation_rate params ->
  (fin amount
   * power (1 + App.inflation_rate params)
       (age_at (App.starting_age params) (app_month_ends params) i
        - IZR (App.starting_age params)))%float
  = Some (amount
          * Rpower (1 + App.inflation_rate params)
              (IZR (Calendar.month_end i - Calendar.month_end 0) / 365.25)).
Proof.
  intros Hi Hb. unfold app_month_ends.
  rewrite elapsed_years by exact Hi. rewrite power_pos by exact Hb.
  reflexivity.
Qed.

Lemma app_income_expenses_nth {RT : Runtime} (params : App.Params) (s : state) :
  (App.starting_age params < App.retirement_age params)%Z ->
  0 <= App.annual_volatility params ->
  -1 <= App.annual_return_rate params ->
  0 < 1 + App.inflation_rate params ->
  exists df tr s',
    App.generate_simulation params s = (Ok (df, tr), s')
    /\ forall i, (i < Z.to_nat (app_num_months params))%nat ->
         let growth :=
           Rpower (1 + App.inflation_rate params)
             (IZR (Calendar.month_end i - Calendar.month_end 0) / 365.25) in
         nth i (Monthly_Income df) nan = Some (App.monthly_income params * growth)
         /\ nth i (Monthly_Expenses df) nan
            = Some (App.monthly_expenses params * growth).
Proof.
  intros Hage Hvol Hret Hinf.
  destruct (app_portfolio_value_rule params s Hage Hvol Hret)
    as (df & tr & s' & _ & _ & Hrun & _ & _ & Hdf & _ & _).
  exists df, tr, s'. split; [exact Hrun|].
  intros i Hi. rewrite Hdf.
  cbn [Monthly_Income Monthly_Expenses set_Portfolio_Value].
  unfold app_cashflow_frame.
  pose proof (cashflow_frame_nth (App.starting_age params)
                (App.monthly_income params) (App.monthly_expenses params)
                (App.inflation_rate params) (app_month_ends params) i) as H.
  cbv zeta in H. destruct H as (_ & Hinc & Hexp & _).
  { unfold app_month_ends. now rewrite month_ends_length. }
  rewrite Hinc, Hexp. cbv zeta.
  now rewrite !inflated_amount by assumption.
Qed.

(** C9, the claim as stated fails: a negative income shrinks further under
    a positive inflation. *)
Lemma negative_income_decreases :
  exists df tr s' x y,
    @App.generate_simulation constant_runtime negative_income_params
      (@empty_state constant_runtime tt) = (Ok (df, tr), s')
    /\ 0 <= App.inflation_rate negative_income_params
    /\ nth 0 (Monthly_Income df) nan = Some x
    /\ nth 1 (Monthly_Income df) nan = Some y
    /\ y < x.
Proof.
  destruct (@app_income_expenses_nth constant_runtime negative_income_params
              (@empty_state constant_runtime tt)) as (df & tr & s' & Hrun & Hnth);
    try (cbn [negative_income_params App.annual_volatility
              App.annual_return_rate App.inflation_rate]; lra).
  { cbn [negative_income_params App.starting_age App.retirement_age]. lia. }
  destruct (Hnth 0%nat) as [H0 _]; [vm_compute; lia|].
  destruct (Hnth 1%nat) as [H1 _]; [vm_compute; lia|].
  cbv zeta in H0, H1.
  cbn [negative_income_params App.monthly_income App.inflation_rate] in H0, H1.
  do 5 eexists. split; [exact Hrun|].
  split; [cbn [negative_income_params App.inflation_rate]; lra|].
  split; [exact H0|]. split; [exact H1|].
  assert (Hlt : Rpower (1 + 0.03)
                  (IZR (Calendar.month_end 0 - Calendar.month_end 0) / 365.25)
                < Rpower (1 + 0.03)
                    (IZR (Calendar.month_end 1 - Calendar.month_end 0) / 365.25)).
  { apply Rpower_lt; [lra|].
    change (Calendar.month_end 0 - Calendar.month_end 0)%Z with 0%Z.
    change (Calendar.month_end 1 - Calendar.month_end 0)%Z with 28%Z. lra. }
  lra.
Qed.

(** C9, amended: when [inflation_rate >= 0] and the base income and the base
    expenses are not negative, the income and the expenses of a path never
    decrease from one month to the next. *)
Theorem cashflows_nondecreasing {RT : Runtime} (params : App.Params) (s : state) :
  (App.starting_age params < App.retirement_age params)%Z ->
  0 <= App.annual_volatility params ->
  -1 <= App.annual_return_rate params ->
  0 <= App.inflation_rate params ->
  0 <= App.monthly_income params ->
  0 <= App.monthly_expenses params ->
  exists df tr s',
    App.generate_simulation params s = (Ok (df, tr), s')
    /\ forall i, (S i < Z.to_nat (app_num_months params))%nat ->
         exists inc inc' exp exp',
           nth i (Monthly_Income df) nan = Some inc
           /\ nth (S i) (Monthly_Income df) nan = Some inc'
           /\ inc <= inc'
           /\ nth i (Monthly_Expenses df) nan = Some exp
           /\ nth (S i) (Monthly_Expenses df) nan = Some exp'
           /\ exp <= exp'.
Proof.
  intros Hage Hvol Hret Hinf Hinc Hexp.
  destruct (app_income_expenses_nth params s Hage Hvol Hret)
    as (df & tr & s' & Hrun & Hnth); [lra|].
  exists df, tr, s'. split; [exact Hrun|].
  intros i Hi.
  destruct (Hnth i) as [Hi1 He1]; [lia|].
  destruct (Hnth (S i) Hi) as [Hi2 He2]. cbv zeta in *.
  pose proof (Rpower_mono_exponent (1 + App.inflation_rate params) _ _
                ltac:(lra) (elapsed_years_monotone i (S i) ltac:(lia))) as Hg.
  do 4 eexists. split; [exact Hi1|]. split; [exact Hi2|].
  split; [now apply Rmult_le_compat_l|].
  split; [exact He1|]. split; [exact He2|].
  now apply Rmult_le_compat_l.
Qed.

Lemma cashflows_nondecreasing_witness :
  exists df tr s',
    @App.generate_simulation constant_runtime App.get_default_params
      (@empty_state constant_runtime tt) = (Ok (df, tr), s')
    /\ forall i, (S i < Z.to_nat (app_num_months App.get_default_params))%nat ->
         exists inc inc' exp exp',
           nth i (Monthly_Income df) nan = Some inc
           /\ nth (S i) (Monthly_Income df) nan = Some inc'
           /\ inc <= inc'
           /\ nth i (Monthly_Expenses df) nan = Some exp
           /\ nth (S i) (Monthly_Expenses df) nan = Some exp'
           /\ exp <= exp'.
Proof.
  apply (@cashflows_nondecreasing constant_runtime App.get_default_params
           (@empty_state constant_runtime tt));
    cbn [App.get_default_params App.starting_age App.retirement_age
         App.annual_volatility App.annual_return_rate App.inflation_rate
         App.monthly_income App.monthly_expenses]; try lra.
  lia.
Defined.

(** ** Zero volatility *)

Lemma zero_volatility_draws {RT : Runtime} (params : App.Params) (r : R)
    (size : nat) (s : state) :
  App.annual_volatility params = 0 ->
  app_monthly_expected_return params = Some r ->
  fst (App.draw_monthly_returns params size s) = Ok (repeat r size).
Proof.
  intros Hvol Hr.
  rewrite (draw_monthly_returns_ok params size s r Hr) by lra.
  cbn [fst]. rewrite Hvol.
  replace (0 / sqrt 12) with 0 by (unfold Rdiv; now rewrite Rmult_0_l).
  now rewrite normal_draws_zero_scale.
Qed.

(** C7: with [annual_volatility = 0] (and no crash injection, there being
    none in [app.py]) every generated monthly return is
    [(1 + annual_return_rate)^(1/12) - 1], and two runs with the same
    parameters return the same DataFrame, hence the same portfolio values,
    whatever the states of the random generator. *)
Theorem zero_volatility_deterministic {RT : Runtime} (params : App.Params)
    (s1 s2 : state) :
  App.annual_volatility params = 0 ->
  (App.starting_age params < App.retirement_age params)%Z ->
  -1 <= App.annual_return_rate params ->
  exists r df tr s1' s2',
    (power (1 + App.annual_return_rate params) (1 / 12) - fin 1)%float = Some r
    /\ (forall size s,
          fst (App.draw_monthly_returns params size s) = Ok (repeat r size))
    /\ App.generate_simulation params s1 = (Ok (df, tr), s1')
    /\ App.generate_simulation params s2 = (Ok (df, tr), s2')
    /\ length (Portfolio_Value df) = Z.to_nat (app_num_months params).
Proof.
  intros Hvol Hage Hret.
  destruct (generate_simulation_ok params s1 Hage ltac:(lra) Hret)
    as (r & rets1 & g1 & Hr & Hd1 & Hrun1).
  destruct (generate_simulation_ok params s2 Hage ltac:(lra) Hret)
    as (r' & rets2 & g2 & Hr' & Hd2 & Hrun2).
  assert (r' = r) as -> by congruence.
  assert (E : forall g n, fst (normal_draws r
                (App.annual_volatility params / sqrt 12) n g) = repeat r n).
  { intros g n. rewrite Hvol.
    replace (0 / sqrt 12) with 0 by (unfold Rdiv; now rewrite Rmult_0_l).
    apply normal_draws_zero_scale. }
  assert (E1 : rets1 = repeat r (length (app_month_ends params))).
  { rewrite <- (E (gen s1)). now rewrite Hd1. }
  assert (E2 : rets2 = repeat r (length (app_month_ends params))).
  { rewrite <- (E (gen s2)). now rewrite Hd2. }
  rewrite E2 in Hrun2. rewrite E1 in Hrun1.
  do 5 eexists. split; [exact Hr|].
  split; [intros size s; now apply zero_volatility_draws|].
  split; [exact Hrun1|]. split; [exact Hrun2|].
  destruct (app_final_frame_rule params (app_month_ends params)
              (repeat r (length (app_month_ends params))))
    as (pv & -> & Hlen & _).
  cbn [Portfolio_Value set_Portfolio_Value].
  rewrite Hlen. unfold app_month_ends. apply month_ends_length.
Qed.

Lemma zero_volatility_deterministic_witness :
  exists r df tr s1' s2',
    (power (1 + App.annual_return_rate (example_params 2)) (1 / 12)
     - fin 1)%float = Some r
    /\ (forall size s,
          fst (@App.draw_monthly_returns counter_runtime (example_params 2) size s)
          = Ok (repeat r size))
    /\ @App.generate_simulation counter_runtime (example_params 2)
         (@empty_state counter_runtime 0%nat) = (Ok (df, tr), s1')
    /\ @App.generate_simulation counter_runtime (example_params 2)
         (@empty_state counter_runtime 7%nat) = (Ok (df, tr), s2')
    /\ length (Portfolio_Value df)
       = Z.to_nat (app_num_months (example_params 2)).
Proof.
  apply (@zero_volatility_deterministic counter_runtime (example_params 2)
           (@empty_state counter_runtime 0%nat)
           (@empty_state counter_runtime 7%nat)).
  - reflexivity.
  - cbn [example_params App.starting_age App.retirement_age]. lia.
  - cbn [example_params App.annual_return_rate]. lra.
Defined.

(** The monthly expected return is the twelfth root, not the twelfth part:
    for the default 7% a year, [1.07^(1/12) - 1] is not [0.07 / 12]. *)
Lemma monthly_expected_return_not_a_twelfth :
  app_monthly_expected_return App.get_default_params
  = Some (Rpower 1.07 (1 / 12) - 1)
  /\ Rpower 1.07 (1 / 12) - 1 <> 0.07 / 12.
Proof.
  split.
  - unfold app_monthly_expected_return. cbn [App.get_default_params
      App.annual_return_rate].
    rewrite power_pos by lra. replace (1 + 0.07) with 1.07 by lra. reflexivity.
  - intros H.
    assert (E : Rpower 1.07 (1 / 12) = 1 + 0.07 / 12) by lra.
    assert (E12 : Rpower (Rpower 1.07 (1 / 12)) 12 = 1.07).
    { rewrite Rpower_mult. replace (1 / 12 * 12) with 1 by lra.
      apply Rpower_1. lra. }
    rewrite E in E12.
    replace 12 with (INR 12) in E12 at 2 by (rewrite INR_IZR_INZ; reflexivity).
    rewrite Rpower_pow in E12 by lra.
    assert (Hb : 1 + 12 * (0.07 / 12) + 66 * (0.07 / 12) ^ 2
                 <= (1 + 0.07 / 12) ^ 12).
    { set (x := 0.07 / 12) in *. assert (Hx : 0 <= x) by (unfold x; lra).
      assert (H2 : 0 <= x ^ 2) by nra.
      assert (H3 : 0 <= x ^ 3) by (simpl in *; nra).
      clear E E12 H.
      replace ((1 + x) ^ 12) with
        (1 + 12 * x + 66 * x ^ 2
         + x ^ 3 * (220 + 495 * x + 792 * x ^ 2 + 924 * x ^ 3 + 792 * x ^ 4
                    + 495 * x ^ 5 + 220 * x ^ 6 + 66 * x ^ 7 + 12 * x ^ 8
                    + x ^ 9)) by ring.
      assert (Hp : forall k, 0 <= x ^ k) by (intros k; now apply pow_le).
      pose proof (Hp 4%nat). pose proof (Hp 5%nat). pose proof (Hp 6%nat).
      pose proof (Hp 7%nat). pose proof (Hp 8%nat). pose proof (Hp 9%nat).
      assert (0 <= x ^ 3 * (220 + 495 * x + 792 * x ^ 2 + 924 * x ^ 3
                            + 792 * x ^ 4 + 495 * x ^ 5 + 220 * x ^ 6
                            + 66 * x ^ 7 + 12 * x ^ 8 + x ^ 9)).
      { apply Rmult_le_pos; [exact H3|]. lra. }
      lra. }
    rewrite E12 in Hb.
    assert (0 < 66 * (0.07 / 12) ^ 2) by (simpl; lra).
    lra.
Qed.

(** ** Invalid parameters *)

Section Invalid.

Context {RT : Runtime}.

Lemma generate_simulation_no_months (params : App.Params) (s : state) :
  (App.retirement_age params <= App.starting_age params)%Z ->
  App.generate_simulation params s = (Raise ValueError, s)
  \/ App.generate_simulation params s
     = (Raise IndexError, {| frame := new_frame []; gen := gen s |}).
Proof.
  intros H. rewrite generate_simulation_unfold.
  destruct (date_range_nonpos (app_num_months params)) as [-> | ->];
    [unfold app_num_months; lia | now right | now left].
Qed.

Lemma generate_simulation_negative_volatility (params : App.Params) (s : state) :
  (App.starting_age params < App.retirement_age params)%Z ->
  App.annual_volatility params < 0 ->
  exists e,
    App.generate_simulation params s
    = (Raise e, {| frame := app_cashflow_frame params (app_month_ends params);
                   gen := gen s |}).
Proof.
  intros Hage Hvol. rewrite generate_simulation_unfold.
  destruct (date_range_pos (app_num_months params)) as (d & ds & -> & Hds);
    [unfold app_num_months; lia|].
  fold (app_month_ends params) in Hds. cbv zeta. rewrite Hds.
  destruct (draw_monthly_returns_negative_volatility params
              (length (app_month_ends params))
              {| frame := app_cashflow_frame params (app_month_ends params);
                 gen := gen s |} Hvol) as [e ->].
  now exists e.
Qed.

Lemma generate_simulation_invalid (params : App.Params) (s : state) :
  (App.retirement_age params <= App.starting_age params)%Z
  \/ App.annual_volatility params < 0 ->
  exists e s', App.generate_simulation params s = (Raise e, s').
Proof.
  intros H.
  destruct (Z_le_gt_dec (App.retirement_age params) (App.starting_age params))
    as [Hle | Hgt].
  - destruct (generate_simulation_no_months params s Hle) as [-> | ->];
      eauto.
  - destruct H as [H | H]; [lia|].
    destruct (generate_simulation_negative_volatility params s) as [e ->];
      [lia | exact H | eauto].
Qed.

Lemma run_simulations_ok (params : App.Params) (n : nat) :
  (App.starting_age params < App.retirement_age params)%Z ->
  0 <= App.annual_volatility params ->
  -1 <= App.annual_return_rate params ->
  forall all_simulations all_trailing_returns s,
  exists sims trs s',
    App.run_simulations params n all_simulations all_trailing_returns s
    = (Ok (sims, trs), s')
    /\ length sims = (length all_simulations + n)%nat
    /\ length trs = (length all_trailing_returns + n)%nat.
Proof.
  intros Hage Hvol Hret.
  induction n as [|n IH]; intros sims0 trs0 s.
  - exists sims0, trs0, s. simpl. repeat split; lia.
  - cbn [App.run_simulations]. unfold bind at 1.
    destruct (generate_simulation_ok params s Hage Hvol Hret)
      as (r & rets & g' & _ & _ & ->).
    cbn [fst snd].
    match goal with
    | |- context [App.run_simulations params n ?a ?b ?st] =>
        destruct (IH a b st) as (sims & trs & s' & -> & Hl1 & Hl2)
    end.
    exists sims, trs, s'. rewrite length_app in Hl1, Hl2. simpl in Hl1, Hl2.
    repeat split; lia.
Qed.

End Invalid.

(** C5, the claim as stated fails: a negative volatility is met only by the
    normal draw, after the age and cashflow columns of the 492 months have
    been computed; the run does not fail before any work. *)
Lemma negative_volatility_fails_late :
  (exists s',
     @App.generate_simulation constant_runtime negative_volatility_params
       (@empty_state constant_runtime tt) = (Raise ValueError, s')
     /\ length (Monthly_Income (frame s')) = 492%nat)
  /\ ~ @fails_before_any_work constant_runtime negative_volatility_params
         (@empty_state constant_runtime tt).
Proof.
  assert (Hage : (App.starting_age negative_volatility_params
                  < App.retirement_age negative_volatility_params)%Z)
    by (cbn [negative_volatility_params App.starting_age App.retirement_age]; lia).
  assert (Hvol : App.annual_volatility negative_volatility_params < 0)
    by (cbn [negative_volatility_params App.annual_volatility]; lra).
  destruct (@generate_simulation_negative_volatility constant_runtime
              negative_volatility_params (@empty_state constant_runtime tt)
              Hage Hvol) as [e He].
  assert (Hlen : length (Monthly_Income
                   (app_cashflow_frame negative_volatility_params
                      (app_month_ends negative_volatility_params))) = 492%nat).
  { unfold app_cashflow_frame.
    destruct (cashflow_frame_lengths
                (App.starting_age negative_volatility_params)
                (App.monthly_income negative_volatility_params)
                (App.monthly_expenses negative_volatility_params)
                (App.inflation_rate negative_volatility_params)
                (app_month_ends negative_volatility_params))
      as (_ & _ & -> & _).
    unfold app_month_ends. rewrite month_ends_length. reflexivity. }
  assert (Ee : e = ValueError).
  { rewrite generate_simulation_unfold in He.
    destruct (@date_range_pos constant_runtime
                (app_num_months negative_volatility_params))
      as (d & ds & Hd & Hds); [reflexivity|].
    rewrite Hd in He. cbv zeta in He.
    unfold App.draw_monthly_returns, np_random_normal in He.
    cbn [negative_volatility_params App.annual_return_rate
         App.annual_volatility] in He.
    rewrite power_pos in He by lra. cbn [sub lift2 fin] in He.
    assert (Hs : Rltb (-0.15 / sqrt 12) 0 = true).
    { apply Rltb_true. unfold Rdiv.
      pose proof (Rinv_0_lt_compat _ sqrt_12_pos). nra. }
    rewrite Hs in He. unfold lift in He. congruence. }
  subst e. split.
  - eexists. split; [exact He|]. exact Hlen.
  - intros [e' He']. unfold fails_before_any_work in *.
    rewrite He in He'.
    apply (f_equal (fun r => length (Monthly_Income (frame (snd r))))) in He'.
    cbn [snd frame] in He'. rewrite Hlen in He'. discriminate.
Qed.

(** C5, amended: a parameter set with [retirement_age <= starting_age] (a
    month count that is not positive) or with a negative volatility makes
    [generate_simulation] raise, by the library call that meets the bad
    value, there being no validation step: before any column exists in the
    first case; in the second, after the age and cashflow columns are
    filled and before any return is drawn or any portfolio value computed.
    The exception leaves the batch loop, so that no batch is returned when
    [num_simulations >= 1].  With [retirement_age > starting_age], a
    volatility that is not negative and [annual_return_rate >= -1] no error
    is raised and the batch holds [num_simulations] paths. *)
Theorem invalid_parameters_raise {RT : Runtime} (params : App.Params) (g : rng) :
  ((App.retirement_age params <= App.starting_age params)%Z ->
     exists e, App.generate_simulation params (empty_state g)
               = (Raise e, empty_state g))
  /\ ((App.starting_age params < App.retirement_age params)%Z ->
      App.annual_volatility params < 0 ->
      exists e s',
        App.generate_simulation params (empty_state g) = (Raise e, s')
        /\ gen s' = g
        /\ Portfolio_Value (frame s') = []
        /\ length (Monthly_Income (frame s')) = Z.to_nat (app_num_months params))
  /\ ((App.retirement_age params <= App.starting_age params)%Z
      \/ App.annual_volatility params < 0 ->
      (0 < App.num_simulations params)%Z ->
      exists e s', App.simulate_batch params (empty_state g) = (Raise e, s'))
  /\ ((App.starting_age params < App.retirement_age params)%Z ->
      0 <= App.annual_volatility params ->
      -1 <= App.annual_return_rate params ->
      exists sims trs s',
        App.simulate_batch params (empty_state g) = (Ok (sims, trs), s')
        /\ length sims = Z.to_nat (App.num_simulations params)
        /\ length trs = Z.to_nat (App.num_simulations params)).
Proof.
  split; [|split; [|split]].
  - intros H.
    destruct (generate_simulation_no_months params (empty_state g) H)
      as [-> | ->]; eauto.
  - intros Hage Hvol.
    destruct (generate_simulation_negative_volatility params (empty_state g)
                Hage Hvol) as [e ->].
    do 2 eexists. split; [reflexivity|]. cbn [gen frame empty_state].
    split; [reflexivity|]. split; [reflexivity|].
    unfold app_cashflow_frame.
    destruct (cashflow_frame_lengths (App.starting_age params)
                (App.monthly_income params) (App.monthly_expenses params)
                (App.inflation_rate params) (app_month_ends params))
      as (_ & _ & -> & _).
    unfold app_month_ends. apply month_ends_length.
  - intros Hinv Hn. unfold App.simulate_batch.
    destruct (Z.to_nat (App.num_simulations params)) as [|k] eqn:E; [lia|].
    cbn [App.run_simulations]. unfold bind at 1.
    destruct (generate_simulation_invalid params (empty_state g) Hinv)
      as (e & s' & ->).
    eauto.
  - intros Hage Hvol Hret. unfold App.simulate_batch.
    destruct (run_simulations_ok params
                (Z.to_nat (App.num_simulations params)) Hage Hvol Hret
                [] [] (empty_state g))
      as (sims & trs & s' & -> & Hl1 & Hl2).
    exists sims, trs, s'. simpl in Hl1, Hl2. auto.
Qed.

Lemma invalid_parameters_raise_witness :
  (exists e s',
     @App.generate_simulation constant_runtime negative_volatility_params
       (@empty_state constant_runtime tt) = (Raise e, s')
     /\ gen s' = tt
     /\ Portfolio_Value (frame s') = []
     /\ length (Monthly_Income (frame s'))
        = Z.to_nat (app_num_months negative_volatility_params))
  /\ (exists e s',
        @App.simulate_batch constant_runtime negative_volatility_params
          (@empty_state constant_runtime tt) = (Raise e, s'))
  /\ (exists sims trs s',
        @App.simulate_batch constant_runtime App.get_default_params
          (@empty_state constant_runtime tt) = (Ok (sims, trs), s')
        /\ length sims = Z.to_nat (App.num_simulations App.get_default_params)
        /\ length trs = Z.to_nat (App.num_simulations App.get_default_params)).
Proof.
  destruct (@invalid_parameters_raise constant_runtime
              negative_volatility_params tt) as (_ & H2 & H3 & _).
  destruct (@invalid_parameters_raise constant_runtime
              App.get_default_params tt) as (_ & _ & _ & H4).
  split; [|split].
  - apply H2.
    + cbn [negative_volatility_params App.starting_age App.retirement_age]. lia.
    + cbn [negative_volatility_params App.annual_volatility]. lra.
  - apply H3.
    + right. cbn [negative_volatility_params App.annual_volatility]. lra.
    + reflexivity.
  - apply H4.
    + cbn [App.get_default_params App.starting_age App.retirement_age]. lia.
    + cbn [App.get_default_params App.annual_volatility]. lra.
    + cbn [App.get_default_params App.annual_return_rate]. lra.
Defined.

(** ** Running [plan.py] *)

Lemma plan_monthly_expected_return_power :
  (power (1 + Plan.annual_return_rate) (1 / 12) - fin 1)%float
  = Some Plan.monthly_expected_return.
Proof.
  unfold Plan.annual_return_rate. rewrite power_pos by lra. reflexivity.
Qed.

Lemma plan_monthly_expected_return_pos : 0 < Plan.monthly_expected_return.
Proof.
  unfold Plan.monthly_expected_return, Plan.annual_return_rate.
  pose proof (Rpower_gt_1 (1 + 0.07) (1 / 12)). lra.
Qed.

Lemma plan_monthly_volatility_pos : 0 < Plan.monthly_volatility.
Proof.
  unfold Plan.monthly_volatility, Plan.annual_volatility.
  apply Rdiv_lt_0_compat; [lra | apply sqrt_12_pos].
Qed.

Lemma plan_portfolio_step_eq (monthly_returns : list R) (df : DataFrame)
    (cp : float) (pv : list float) (i : nat) :
  (i < length pv)%nat ->
  Plan.portfolio_step monthly_returns (cp, set_Portfolio_Value pv df) i
  = (plan_update i cp (nth i (Monthly_Investment df) nan) (nth i monthly_returns 0),
     set_Portfolio_Value
       (set_nth pv i
          (plan_update i cp (nth i (Monthly_Investment df) nan)
             (nth i monthly_returns 0))) df).
Proof.
  intros Hi. unfold Plan.portfolio_step, plan_update, iloc_Monthly_Investment.
  change (Monthly_Investment (set_Portfolio_Value pv df))
    with (Monthly_Investment df).
  destruct (i =? 0)%nat.
  - rewrite iloc_set_set_Portfolio_Value. simpl Portfolio_Value.
    rewrite nth_set_nth_eq by exact Hi. reflexivity.
  - rewrite iloc_set_set_Portfolio_Value. reflexivity.
Qed.

Lemma plan_final_frame_rule (dates : list Z) (monthly_returns : list R) :
  exists pv,
    plan_final_frame dates monthly_returns
    = set_Portfolio_Value pv (plan_cashflow_frame dates)
    /\ length pv = length dates
    /\ forall i, (i < length dates)%nat ->
         nth i pv nan
         = plan_update i (prior_balance (fin Plan.initial_portfolio) pv i)
             (nth i (Monthly_Investment (plan_cashflow_frame dates)) nan)
             (nth i monthly_returns 0).
Proof.
  unfold plan_final_frame, Plan.portfolio_loop.
  cbn [index set_Portfolio_Value].
  destruct (portfolio_fold_invariant (Plan.portfolio_step monthly_returns)
              (fun i cp => plan_update i cp
                 (nth i (Monthly_Investment (plan_cashflow_frame dates)) nan)
                 (nth i monthly_returns 0))
              (plan_cashflow_frame dates) (fin Plan.initial_portfolio)
              (plan_portfolio_step_eq monthly_returns (plan_cashflow_frame dates))
              (map (fun _ => fin 0) dates) (length dates))
    as (pv & Hfold & Hl & Hval & _); [now rewrite length_map|].
  exists pv.
  change (length (index (plan_cashflow_frame dates))) with (length dates).
  rewrite Hfold. cbn [snd]. rewrite length_map in Hl.
  repeat split; [exact Hl | exact Hval].
Qed.

Section PlanRun.

Context {RT : Runtime}.

Lemma generate_returns_ok (len_df : nat) (s : state) :
  Plan.generate_returns len_df s
  = (Ok (fst (plan_returns len_df (gen s))),
     {| frame := frame s; gen := snd (plan_returns len_df (gen s)) |}).
Proof.
  unfold Plan.generate_returns, plan_returns, np_random_normal, fin.
  assert (Hs : Rltb Plan.monthly_volatility 0 = false).
  { apply Rltb_false. left. apply plan_monthly_volatility_pos. }
  rewrite Hs. unfold bind, with_rng.
  destruct (normal_draws _ _ len_df (gen s)) as [rets g1]. cbn [gen frame].
  destruct (uniform_draws len_df g1) as [us g2]. cbn [gen frame].
  now destruct (Plan.simulate_market_crashes len_df _ rets g2).
Qed.

(** One simulation of [plan.py] returns, with the DataFrame of the
    portfolio loop run on the generated returns. *)
Lemma plan_simulation_ok (s : state) :
  Plan.simulation s
  = (Ok (plan_final_frame plan_month_ends
           (fst (plan_returns (length plan_month_ends) (gen s))),
         map (plan_trailing_entry
                (fst (plan_returns (length plan_month_ends) (gen s))) 24)
             (seq 0 (length (fst (plan_returns (length plan_month_ends) (gen s)))))),
     {| frame := plan_final_frame plan_month_ends
                   (fst (plan_returns (length plan_month_ends) (gen s)));
        gen := snd (plan_returns (length plan_month_ends) (gen s)) |}).
Proof.
  unfold Plan.simulation, plan_month_ends.
  assert (Hn : (0 < Plan.num_months)%Z) by reflexivity.
  revert Hn. generalize Plan.num_months. intros n Hn.
  destruct (date_range_pos n Hn) as (d & ds & Hd & Hds).
  rewrite <- Hds. clear Hds. revert Hd. generalize (d :: ds) as dates.
  clear d ds. intros dates Hd.
  unfold bind at 1. unfold lift at 1. rewrite Hd.
  unfold bind at 1. unfold modify_frame at 1.
  unfold bind at 1. unfold index0 at 1, bind at 1, get_frame at 1.
  cbn [frame gen new_frame index ret].
  destruct dates as [|d ds] eqn:Edates.
  - exfalso. unfold date_range in Hd.
    destruct (n <? 0)%Z eqn:En; [apply Z.ltb_lt in En; lia|].
    injection Hd as Hd. apply (f_equal (@length Z)) in Hd.
    rewrite month_ends_length in Hd. simpl in Hd. lia.
  - rewrite <- Edates. unfold ret.
    unfold bind at 1. unfold modify_frame at 1.
    unfold bind at 1. unfold modify_frame at 1.
    unfold bind at 1. unfold modify_frame at 1.
    unfold bind at 1. unfold modify_frame at 1.
    unfold bind at 1. unfold get_frame at 1.
    unfold bind at 1.
    cbn [frame gen index set_Age set_Monthly_Income set_Monthly_Expenses
         set_Monthly_Investment new_frame Age Monthly_Income Monthly_Expenses
         Monthly_Investment Portfolio_Value].
    rewrite generate_returns_ok. cbn [frame gen].
    unfold bind at 1. unfold modify_frame at 1.
    unfold bind at 1. unfold modify_frame at 1.
    unfold bind at 1. unfold lift at 1.
    rewrite plan_trailing_closed by lia.
    unfold bind at 1. unfold get_frame at 1.
    cbn [frame gen index set_Portfolio_Value].
    subst dates. reflexivity.
Qed.

End PlanRun.

Lemma constant_normal_draws (loc scale : R) (size : nat) (g : unit) :
  @normal_draws constant_runtime loc scale size g
  = (repeat (loc + scale * 0) size, tt).
Proof.
  induction size as [|k IH]; simpl.
  - now destruct g.
  - rewrite IH. reflexivity.
Qed.

Lemma constant_uniform_draws (size : nat) (g : unit) :
  @uniform_draws constant_runtime size g = (repeat (1 / 2) size, tt).
Proof.
  induction size as [|k IH]; simpl.
  - now destruct g.
  - rewrite IH. reflexivity.
Qed.

Lemma no_crash_no_change {RT : Runtime} (len_df : nat) (crash_months : list bool)
    (monthly_returns : list R) (g : rng) (l : list nat) :
  (forall i, nth i crash_months false = false) ->
  fold_left (Plan.crash_step len_df crash_months) l (monthly_returns, g)
  = (monthly_returns, g).
Proof.
  intros H. induction l as [|i l IH]; cbn [fold_left]; [reflexivity|].
  now rewrite crash_step_no_crash by apply H.
Qed.

Lemma constant_plan_returns (len_df : nat) :
  @plan_returns constant_runtime len_df tt
  = (repeat (Plan.monthly_expected_return + Plan.monthly_volatility * 0) len_df, tt).
Proof.
  unfold plan_returns.
  rewrite constant_normal_draws, constant_uniform_draws.
  unfold Plan.simulate_market_crashes.
  rewrite (@no_crash_no_change constant_runtime); [reflexivity|].
  intros i. rewrite map_repeat.
  assert (Hu : Rltb (1 / 2) Plan.crash_probability = false).
  { apply Rltb_false. unfold Plan.crash_probability. lra. }
  rewrite Hu. apply nth_repeat.
Qed.

Lemma plan_contribution (dates : list Z) (i : nat) :
  (i < length dates)%nat ->
  exists growth,
    0 < growth
    /\ nth i (Monthly_Investment (plan_cashflow_frame dates)) nan
       = Some (Plan.monthly_income * growth - Plan.monthly_expenses * growth).
Proof.
  intros Hi. unfold plan_cashflow_frame.
  pose proof (cashflow_frame_nth Plan.starting_age Plan.monthly_income
                Plan.monthly_expenses Plan.inflation_rate dates i Hi) as H.
  cbv zeta in H. destruct H as (_ & _ & _ & ->).
  rewrite power_pos by (unfold Plan.inflation_rate; lra).
  eexists. split; [|reflexivity]. unfold Rpower. apply exp_pos.
Qed.

(** C1: the portfolio loop of [plan.py] does not follow the update rule.  In
    the run where every normal deviate is 0 and every uniform one 1/2, the
    return of month 1 is [monthly_expected_return] and the value stored for
    month 1 is [prior * (1 + return) + contribution]: the return is applied
    before the contribution is added, where the rule gives
    [(prior + contribution) * (1 + return)]. *)
Theorem plan_portfolio_rule_differs :
  exists df tr s' p0 c1 r1,
    @Plan.simulation constant_runtime (@empty_state constant_runtime tt)
    = (Ok (df, tr), s')
    /\ r1 = Plan.monthly_expected_return
    /\ nth 0 (Portfolio_Value df) nan = Some p0
    /\ nth 1 (Monthly_Investment df) nan = Some c1
    /\ nth 1 (Portfolio_Value df) nan = Some (p0 * (1 + r1) + c1)
    /\ update_rule_spec (Some p0) (Some c1) r1 = Some ((p0 + c1) * (1 + r1))
    /\ nth 1 (Portfolio_Value df) nan
       <> update_rule_spec
            (prior_balance (fin Plan.initial_portfolio) (Portfolio_Value df) 1)
            (nth 1 (Monthly_Investment df) nan) r1.
Proof.
  pose proof (@plan_simulation_ok constant_runtime
                (@empty_state constant_runtime tt)) as Hrun.
  cbn [gen empty_state] in Hrun.
  assert (Hn : (2 <= length plan_month_ends)%nat).
  { unfold plan_month_ends. rewrite month_ends_length.
    replace (Z.to_nat Plan.num_months) with 492%nat by reflexivity. lia. }
  revert Hrun Hn. generalize plan_month_ends as dates. intros dates Hrun Hn.
  rewrite constant_plan_returns in Hrun. cbn [fst snd] in Hrun.
  pose proof plan_monthly_expected_return_pos as Hmer.
  replace (Plan.monthly_expected_return + Plan.monthly_volatility * 0)
    with Plan.monthly_expected_return in Hrun by lra.
  set (r := Plan.monthly_expected_return) in *.
  destruct (plan_final_frame_rule dates (repeat r (length dates)))
    as (pv & Hdf & Hlen & Hval).
  rewrite Hdf in Hrun.
  destruct (plan_contribution dates 0) as (g0 & Hg0 & Hc0); [lia|].
  destruct (plan_contribution dates 1) as (g1 & Hg1 & Hc1); [lia|].
  assert (Hr : forall i, (i < length dates)%nat ->
            nth i (repeat r (length dates)) 0 = r).
  { intros i Hi. rewrite (nth_indep _ 0 r) by (rewrite repeat_length; lia).
    apply nth_repeat. }
  unfold Plan.monthly_income, Plan.monthly_expenses in Hc0, Hc1.
  set (c0 := 5000 * g0 - 3500 * g0) in *.
  set (c1 := 5000 * g1 - 3500 * g1) in *.
  set (p0 := (50000 + c0) * (1 + r)).
  assert (H0 : nth 0 pv nan = Some p0).
  { rewrite Hval, Hc0, Hr by lia. reflexivity. }
  assert (H1 : nth 1 pv nan = Some (p0 * (1 + r) + c1)).
  { rewrite Hval, Hc1, Hr by lia. cbn [prior_balance]. rewrite H0.
    reflexivity. }
  assert (Hc1pos : 0 < c1) by (unfold c1; lra).
  assert (Hp0pos : 0 < p0) by (unfold p0, c0; nra).
  do 3 eexists. exists p0, c1, r. split; [exact Hrun|].
  cbn [Portfolio_Value Monthly_Investment set_Portfolio_Value].
  split; [reflexivity|]. split; [exact H0|]. split; [exact Hc1|].
  split; [exact H1|].
  split; [apply update_rule_spec_nonneg; lra|].
  cbn [prior_balance]. rewrite H0, H1, Hc1.
  rewrite update_rule_spec_nonneg by lra.
  intros E. injection E as E. nra.
Qed.

(** ** What the normal draw can produce *)

(** With a scale that is not zero, every series of returns is the outcome of
    the normal draw for some deviates. *)
Lemma every_series_can_be_drawn (loc scale : R) (returns : list R) :
  scale <> 0 ->
  @normal_draws replay_runtime loc scale (length returns)
    (map (fun r => (r - loc) / scale) returns)
  = (returns, []).
Proof.
  intros Hs. induction returns as [|r rs IH]; [reflexivity|].
  cbn [length map normal_draws standard_normal replay_runtime hd tl].
  rewrite IH. f_equal. f_equal. field. exact Hs.
Qed.

(** * Further properties of the code *)

(** ** [calculate_trailing_return] *)

(** X1: with [window = 0] the division [12/window] raises
    ZeroDivisionError at the first month; only an empty series goes
    through, with an empty result. *)
Theorem trailing_return_window_zero (returns : list R) :
  App.calculate_trailing_return returns 0
  = match returns with
    | [] => Ok []
    | _ :: _ => Raise ZeroDivisionError
    end.
Proof.
  destruct returns as [|r rs]; [reflexivity|].
  unfold App.calculate_trailing_return.
  cbn [length seq for_each]. unfold App.trailing_step at 1.
  cbn [Nat.ltb Nat.leb INR]. unfold py_div.
  assert (H : Reqb 0 0 = true) by now apply Reqb_true.
  rewrite H. reflexivity.
Qed.

Lemma prod_range_ext (f g : nat -> R) (a n : nat) :
  (forall k, (a <= k < a + n)%nat -> f k = g k) ->
  prod_range f a n = prod_range g a n.
Proof.
  revert a. induction n as [|n IH]; intros a H; simpl; [reflexivity|].
  rewrite (H a) by lia. rewrite (IH (S a)); [reflexivity|].
  intros k Hk. apply H. lia.
Qed.



(** X2: the trailing return of month [i >= window] is a function of the
    [window] returns before [i] alone: two series that agree on the months
    [i - window] to [i - 1] have the same entry [i], whatever the return of
    month [i] itself and of every other month. *)
Theorem trailing_return_local (returns1 returns2 : list R) (window i : nat) :
  (0 < window)%nat ->
  (window <= i)%nat -> (i < length returns1)%nat -> (i < length returns2)%nat ->
  (forall k, (i - window <= k < i)%nat -> nth k returns1 0 = nth k returns2 0) ->
  exists l1 l2,
    App.calculate_trailing_return returns1 window = Ok l1
    /\ App.calculate_trailing_return returns2 window = Ok l2
    /\ nth_error l1 i = nth_error l2 i.
Proof.
  intros Hw Hwi H1 H2 Hagree.
  do 2 eexists. split; [now apply app_trailing_closed|].
  split; [now apply app_trailing_closed|].
  rewrite !nth_error_map_seq by assumption.
  rewrite !app_trailing_entry_window by lia.
  unfold annualized_return_spec, window_product.
  rewrite (prod_range_ext (fun k => 1 + nth k returns1 0)
             (fun k => 1 + nth k returns2 0)); [reflexivity|].
  intros k Hk. rewrite Hagree by lia. reflexivity.
Qed.

Lemma trailing_return_local_witness :
  exists l1 l2,
    App.calculate_trailing_return (repeat 0 24 ++ [1]) 24 = Ok l1
    /\ App.calculate_trailing_return (repeat 0 24 ++ [-3]) 24 = Ok l2
    /\ nth_error l1 24 = nth_error l2 24.
Proof.
  apply (trailing_return_local (repeat 0 24 ++ [1]) (repeat 0 24 ++ [-3]) 24 24).
  - lia.
  - lia.
  - rewrite length_app, repeat_length. simpl. lia.
  - rewrite length_app, repeat_length. simpl. lia.
  - intros k Hk. rewrite !app_nth1 by (rewrite repeat_length; lia).
    reflexivity.
Defined.









(** ** The portfolio loop of [generate_simulation] *)

(** X7: a portfolio that starts non-negative, receives non-negative
    contributions and meets no return below -100% stays non-negative: every
    month applies the month's return to [prior + contribution], the flat
    interest is never used. *)
Theorem portfolio_stays_nonnegative (monthly_returns : list R) (b0 : R)
    (df : DataFrame) :
  length (Portfolio_Value df) = length (index df) ->
  0 <= b0 ->
  (forall i, (i < length (index df))%nat ->
     exists c, nth i (Monthly_Investment df) nan = Some c /\ 0 <= c) ->
  (forall i, (i < length (index df))%nat -> -1 <= nth i monthly_returns 0) ->
  let pv := Portfolio_Value (snd (App.portfolio_loop monthly_returns (Some b0) df)) in
  forall i, (i < length (index df))%nat ->
    exists b c,
      prior_balance (Some b0) pv i = Some b
      /\ nth i (Monthly_Investment df) nan = Some c
      /\ 0 <= b
      /\ nth_error pv i = Some (Some ((b + c) * (1 + nth i monthly_returns 0)))
      /\ 0 <= (b + c) * (1 + nth i monthly_returns 0).
Proof.
  intros Hlen Hb0 Hc Hr pv.
  destruct (app_portfolio_loop_rule monthly_returns (Some b0) df Hlen)
    as (pv' & Hloop & Hl & Hval).
  assert (Epv : pv = pv') by (unfold pv; now rewrite Hloop).
  rewrite Epv. clear Epv pv Hloop.
  assert (Hstep : forall i b, (i < length (index df))%nat ->
            prior_balance (Some b0) pv' i = Some b -> 0 <= b ->
            exists c, nth i (Monthly_Investment df) nan = Some c
              /\ nth i pv' nan = Some ((b + c) * (1 + nth i monthly_returns 0))
              /\ 0 <= (b + c) * (1 + nth i monthly_returns 0)).
  { intros i b Hi Hb Hbn. destruct (Hc i Hi) as (c & Hci & Hcn).
    exists c. split; [exact Hci|].
    rewrite Hval, Hb, Hci by exact Hi.
    rewrite update_rule_spec_nonneg by lra. split; [reflexivity|].
    specialize (Hr i Hi). apply Rmult_le_pos; lra. }
  assert (Hprior : forall i, (i < length (index df))%nat ->
            exists b, prior_balance (Some b0) pv' i = Some b /\ 0 <= b).
  { induction i as [|i IH]; intros Hi.
    - exists b0. now split.
    - destruct IH as (b & Hb & Hbn); [lia|].
      destruct (Hstep i b ltac:(lia) Hb Hbn) as (c & _ & Hv & Hvn).
      eexists. split; [exact Hv | exact Hvn]. }
  intros i Hi. destruct (Hprior i Hi) as (b & Hb & Hbn).
  destruct (Hstep i b Hi Hb Hbn) as (c & Hci & Hv & Hvn).
  exists b, c. repeat split; try assumption.
  rewrite (nth_error_nth' pv' nan) by lia. now rewrite Hv.
Qed.

Lemma portfolio_stays_nonnegative_witness :
  let pv := Portfolio_Value
              (snd (App.portfolio_loop [0.1; -0.5] (Some 1000) saver_frame)) in
  exists b c,
    prior_balance (Some 1000) pv 1 = Some b
    /\ nth 1 (Monthly_Investment saver_frame) nan = Some c
    /\ 0 <= b
    /\ nth_error pv 1 = Some (Some ((b + c) * (1 + nth 1 [0.1; -0.5] 0)))
    /\ 0 <= (b + c) * (1 + nth 1 [0.1; -0.5] 0).
Proof.
  apply (portfolio_stays_nonnegative [0.1; -0.5] 1000 saver_frame).
  - reflexivity.
  - lra.
  - intros [|[|i]] Hi; simpl in Hi; try lia; exists 100; split;
      try reflexivity; lra.
  - intros [|[|i]] Hi; simpl in Hi; try lia; simpl; lra.
  - simpl. lia.
Defined.

Lemma update_rule_spec_nan_prior (c : float) (r : R) :
  update_rule_spec nan c r = nan.
Proof. reflexivity. Qed.

Lemma update_rule_spec_nan_contribution (b : float) (r : R) :
  update_rule_spec b nan r = nan.
Proof. now destruct b. Qed.

(** X8: nan is absorbing in the portfolio loop.  A month whose contribution
    or whose prior balance is nan stores nan, and so does every later month
    of the path. *)
Theorem portfolio_nan_propagates (monthly_returns : list R) (initial : float)
    (df : DataFrame) (i : nat) :
  length (Portfolio_Value df) = length (index df) ->
  (i < length (index df))%nat ->
  let pv := Portfolio_Value (snd (App.portfolio_loop monthly_returns initial df)) in
  nth i (Monthly_Investment df) nan = nan \/ prior_balance initial pv i = nan ->
  forall j, (i <= j < length (index df))%nat -> nth_error pv j = Some nan.
Proof.
  intros Hlen Hi pv Hnan.
  destruct (app_portfolio_loop_rule monthly_returns initial df Hlen)
    as (pv' & Hloop & Hl & Hval).
  assert (Epv : pv = pv') by (unfold pv; now rewrite Hloop).
  rewrite Epv in *. clear Epv pv Hloop.
  assert (Hi0 : nth i pv' nan = nan).
  { rewrite Hval by exact Hi. destruct Hnan as [-> | ->].
    - apply update_rule_spec_nan_contribution.
    - apply update_rule_spec_nan_prior. }
  assert (Hall : forall j, (i <= j < length (index df))%nat ->
            nth j pv' nan = nan).
  { induction j as [|j IH]; intros Hj.
    - assert (i = 0)%nat as E by lia. now rewrite <- E.
    - destruct (Nat.eq_dec i (S j)) as [<- | Hne]; [exact Hi0|].
      rewrite Hval by lia. cbn [prior_balance]. rewrite IH by lia.
      apply update_rule_spec_nan_prior. }
  intros j Hj. rewrite (nth_error_nth' pv' nan) by lia. now rewrite Hall.
Qed.

Lemma portfolio_nan_propagates_witness :
  let pv := Portfolio_Value
              (snd (App.portfolio_loop [0.1; 0.2] (Some 1000) poisoned_frame)) in
  nth_error pv 1 = Some nan.
Proof.
  apply (portfolio_nan_propagates [0.1; 0.2] (Some 1000) poisoned_frame 0).
  - reflexivity.
  - simpl. lia.
  - left. reflexivity.
  - simpl. lia.
Defined.

(** ** The paths of [generate_simulation] *)

Section Stream.

Context {RT : Runtime}.

Lemma advance_add (g : rng) (a b : nat) :
  advance (advance g a) b = advance g (a + b).
Proof.
  revert g. induction a as [|a IH]; intros g; [reflexivity|].
  cbn [advance Nat.add]. apply IH.
Qed.

Lemma normal_draws_stream (loc scale : R) (size : nat) (g : rng) :
  normal_draws loc scale size g
  = (map (fun k => loc + scale * deviate g k) (seq 0 size), advance g size).
Proof.
  revert g. induction size as [|n IH]; intros g; [reflexivity|].
  cbn [normal_draws]. destruct (standard_normal g) as [z g1] eqn:E.
  rewrite IH. cbn [seq map advance]. rewrite E. cbn [snd].
  f_equal. f_equal.
  - unfold deviate. cbn [advance]. now rewrite E.
  - rewrite <- seq_shift, map_map. apply map_ext. intros k.
    unfold deviate. cbn [advance]. now rewrite E.
Qed.

End Stream.

(** X4: a run with valid parameters returns a path of
    [(retirement_age - starting_age) * 12] months: the index, the five
    columns and the trailing series all have that length, and the run has
    drawn that many normal deviates, one for each month. *)
Theorem path_shape {RT : Runtime} (params : App.Params) (s : state) :
  (App.starting_age params < App.retirement_age params)%Z ->
  0 <= App.annual_volatility params ->
  -1 <= App.annual_return_rate params ->
  exists df tr s',
    App.generate_simulation params s = (Ok (df, tr), s')
    /\ frame s' = df
    /\ gen s' = advance (gen s) (Z.to_nat (app_num_months params))
    /\ index df = app_month_ends params
    /\ length (index df) = Z.to_nat (app_num_months params)
    /\ length (Age df) = Z.to_nat (app_num_months params)
    /\ length (Monthly_Income df) = Z.to_nat (app_num_months params)
    /\ length (Monthly_Expenses df) = Z.to_nat (app_num_months params)
    /\ length (Monthly_Investment df) = Z.to_nat (app_num_months params)
    /\ length (Portfolio_Value df) = Z.to_nat (app_num_months params)
    /\ length tr = Z.to_nat (app_num_months params).
Proof.
  intros Hage Hvol Hret.
  destruct (generate_simulation_ok params s Hage Hvol Hret)
    as (r & rets & g' & Hr & Hdraw & Hrun).
  destruct (app_final_frame_rule params (app_month_ends params) rets)
    as (pv & Hdf & Hlen & _).
  assert (Hn : length (app_month_ends params) = Z.to_nat (app_num_months params))
    by (unfold app_month_ends; apply month_ends_length).
  rewrite normal_draws_stream in Hdraw. injection Hdraw as Hrets Hg.
  destruct (cashflow_frame_lengths (App.starting_age params)
              (App.monthly_income params) (App.monthly_expenses params)
              (App.inflation_rate params) (app_month_ends params))
    as (L1 & L2 & L3 & L4 & L5).
  do 3 eexists. split; [exact Hrun|]. rewrite Hdf.
  cbn [frame gen index Age Monthly_Income Monthly_Expenses Monthly_Investment
       Portfolio_Value set_Portfolio_Value].
  unfold app_cashflow_frame. rewrite L1, L2, L3, L4, L5, Hlen, Hn.
  repeat split; try reflexivity.
  - now rewrite <- Hg, Hn.
  - rewrite length_map, length_seq, <- Hrets, length_map, length_seq.
    exact Hn.
Qed.

Lemma path_shape_witness :
  exists df tr s',
    @App.generate_simulation counter_runtime App.get_default_params
      (@empty_state counter_runtime 0%nat) = (Ok (df, tr), s')
    /\ frame s' = df
    /\ gen s' = @advance counter_runtime 0%nat
                  (Z.to_nat (app_num_months App.get_default_params))
    /\ index df = app_month_ends App.get_default_params
    /\ length (index df) = Z.to_nat (app_num_months App.get_default_params)
    /\ length (Age df) = Z.to_nat (app_num_months App.get_default_params)
    /\ length (Monthly_Income df)
       = Z.to_nat (app_num_months App.get_default_params)
    /\ length (Monthly_Expenses df)
       = Z.to_nat (app_num_months App.get_default_params)
    /\ length (Monthly_Investment df)
       = Z.to_nat (app_num_months App.get_default_params)
    /\ length (Portfolio_Value df)
       = Z.to_nat (app_num_months App.get_default_params)
    /\ length tr = Z.to_nat (app_num_months App.get_default_params).
Proof.
  apply (@path_shape counter_runtime App.get_default_params
           (@empty_state counter_runtime 0%nat)).
  - cbn [App.get_default_params App.starting_age App.retirement_age]. lia.
  - cbn [App.get_default_params App.annual_volatility]. lra.
  - cbn [App.get_default_params App.annual_return_rate]. lra.
Defined.

Lemma app_frame_of_run {RT : Runtime} (params : App.Params) (s : state) :
  (App.starting_age params < App.retirement_age params)%Z ->
  0 <= App.annual_volatility params ->
  -1 <= App.annual_return_rate params ->
  exists df tr s' pv,
    App.generate_simulation params s = (Ok (df, tr), s')
    /\ df = set_Portfolio_Value pv
              (app_cashflow_frame params (app_month_ends params))
    /\ length pv = Z.to_nat (app_num_months params)
    /\ forall i, (i < Z.to_nat (app_num_months params))%nat ->
         exists r,
           nth i pv nan
           = update_rule_spec
               (prior_balance (fin (App.initial_investment params)) pv i)
               (nth i (Monthly_Investment
                         (app_cashflow_frame params (app_month_ends params))) nan)
               r.
Proof.
  intros Hage Hvol Hret.
  destruct (generate_simulation_ok params s Hage Hvol Hret)
    as (r & rets & g' & Hr & Hdraw & Hrun).
  destruct (app_final_frame_rule params (app_month_ends params) rets)
    as (pv & Hdf & Hlen & Hval).
  unfold app_month_ends in Hlen, Hval at 1.
  rewrite month_ends_length in Hlen, Hval.
  do 3 eexists. exists pv. split; [exact Hrun|]. split; [exact Hdf|].
  split; [exact Hlen|]. intros i Hi. eexists. now apply Hval.
Qed.

Lemma app_age_nth (params : App.Params) (i : nat) :
  (i < Z.to_nat (app_num_months params))%nat ->
  nth i (Age (app_cashflow_frame params (app_month_ends params))) 0
  = IZR (App.starting_age params)
    + IZR (Calendar.month_end i - Calendar.month_end 0) / 365.25.
Proof.
  intros Hi. unfold app_cashflow_frame.
  pose proof (cashflow_frame_nth (App.starting_age params)
                (App.monthly_income params) (App.monthly_expenses params)
                (App.inflation_rate params) (app_month_ends params) i) as H.
  cbv zeta in H. destruct H as (-> & _).
  { unfold app_month_ends. now rewrite month_ends_length. }
  unfold app_month_ends.
  pose proof (elapsed_years (App.starting_age params)
                (Z.to_nat (app_num_months params)) i Hi). lra.
Qed.

(** X5: the age column starts at [starting_age] exactly and increases
    strictly from month to month. *)
Theorem ages_start_and_increase {RT : Runtime} (params : App.Params) (s : state) :
  (App.starting_age params < App.retirement_age params)%Z ->
  0 <= App.annual_volatility params ->
  -1 <= App.annual_return_rate params ->
  exists df tr s',
    App.generate_simulation params s = (Ok (df, tr), s')
    /\ nth 0 (Age df) 0 = IZR (App.starting_age params)
    /\ forall i, (S i < Z.to_nat (app_num_months params))%nat ->
         nth i (Age df) 0 < nth (S i) (Age df) 0.
Proof.
  intros Hage Hvol Hret.
  destruct (app_frame_of_run params s Hage Hvol Hret)
    as (df & tr & s' & pv & Hrun & Hdf & _).
  exists df, tr, s'. split; [exact Hrun|]. rewrite Hdf.
  cbn [Age set_Portfolio_Value]. split.
  - rewrite app_age_nth by (unfold app_num_months; lia).
    replace (Calendar.month_end 0 - Calendar.month_end 0)%Z with 0%Z by lia.
    lra.
  - intros i Hi. rewrite !app_age_nth by lia.
    pose proof (month_end_increasing i) as Hm.
    assert (IZR (Calendar.month_end i - Calendar.month_end 0)
            < IZR (Calendar.month_end (S i) - Calendar.month_end 0))
      by (apply IZR_lt; lia).
    lra.
Qed.

Lemma ages_start_and_increase_witness :
  exists df tr s',
    @App.generate_simulation constant_runtime App.get_default_params
      (@empty_state constant_runtime tt) = (Ok (df, tr), s')
    /\ nth 0 (Age df) 0 = IZR (App.starting_age App.get_default_params)
    /\ forall i, (S i < Z.to_nat (app_num_months App.get_default_params))%nat ->
         nth i (Age df) 0 < nth (S i) (Age df) 0.
Proof.
  apply (@ages_start_and_increase constant_runtime App.get_default_params
           (@empty_state constant_runtime tt)).
  - cbn [App.get_default_params App.starting_age App.retirement_age]. lia.
  - cbn [App.get_default_params App.annual_volatility]. lra.
  - cbn [App.get_default_params App.annual_return_rate]. lra.
Defined.

(** X6: with [1 + inflation_rate > 0] the net contribution of month [i] is
    [(monthly_income - monthly_expenses) * growth_i] for a growth factor
    [growth_i > 0] that is 1 at month 0: the contribution keeps the sign of
    [monthly_income - monthly_expenses] all along the path, and the first
    month has the base amounts. *)
Theorem contribution_keeps_sign {RT : Runtime} (params : App.Params) (s : state) :
  (App.starting_age params < App.retirement_age params)%Z ->
  0 <= App.annual_volatility params ->
  -1 <= App.annual_return_rate params ->
  0 < 1 + App.inflation_rate params ->
  exists df tr s',
    App.generate_simulation params s = (Ok (df, tr), s')
    /\ nth 0 (Monthly_Income df) nan = Some (App.monthly_income params * 1)
    /\ nth 0 (Monthly_Expenses df) nan = Some (App.monthly_expenses params * 1)
    /\ forall i, (i < Z.to_nat (app_num_months params))%nat ->
         exists growth c,
           0 < growth
           /\ c = (App.monthly_income params - App.monthly_expenses params)
                  * growth
           /\ nth i (Monthly_Investment df) nan = Some c.
Proof.
  intros Hage Hvol Hret Hinf.
  destruct (app_frame_of_run params s Hage Hvol Hret)
    as (df & tr & s' & pv & Hrun & Hdf & _).
  assert (Hn : (0 < Z.to_nat (app_num_months params))%nat)
    by (unfold app_num_months; lia).
  assert (Hcols : forall i, (i < Z.to_nat (app_num_months params))%nat ->
            let growth :=
              Rpower (1 + App.inflation_rate params)
                (IZR (Calendar.month_end i - Calendar.month_end 0) / 365.25) in
            nth i (Monthly_Income df) nan
            = Some (App.monthly_income params * growth)
            /\ nth i (Monthly_Expenses df) nan
               = Some (App.monthly_expenses params * growth)
            /\ nth i (Monthly_Investment df) nan
               = Some (App.monthly_income params * growth
                       - App.monthly_expenses params * growth)).
  { intros i Hi. rewrite Hdf.
    cbn [Monthly_Income Monthly_Expenses Monthly_Investment set_Portfolio_Value].
    unfold app_cashflow_frame.
    pose proof (cashflow_frame_nth (App.starting_age params)
                  (App.monthly_income params) (App.monthly_expenses params)
                  (App.inflation_rate params) (app_month_ends params) i) as H.
    cbv zeta in H. destruct H as (_ & Hinc & Hexp & Hinv).
    { unfold app_month_ends. now rewrite month_ends_length. }
    rewrite Hinc, Hexp, Hinv. cbv zeta.
    rewrite !inflated_amount by assumption. repeat split; reflexivity. }
  exists df, tr, s'. split; [exact Hrun|].
  destruct (Hcols 0%nat Hn) as (H0i & H0e & _). cbv zeta in H0i, H0e.
  replace (Calendar.month_end 0 - Calendar.month_end 0)%Z with 0%Z
    in H0i, H0e by lia.
  replace (0 / 365.25) with 0 in H0i, H0e by lra.
  rewrite Rpower_O in H0i, H0e by exact Hinf.
  split; [exact H0i|]. split; [exact H0e|].
  intros i Hi. destruct (Hcols i Hi) as (_ & _ & Hinv). cbv zeta in Hinv.
  exists (Rpower (1 + App.inflation_rate params)
            (IZR (Calendar.month_end i - Calendar.month_end 0) / 365.25)).
  eexists. split; [|split; [reflexivity|]].
  - unfold Rpower. apply exp_pos.
  - rewrite Hinv. f_equal. ring.
Qed.

Lemma contribution_keeps_sign_witness :
  exists df tr s',
    @App.generate_simulation constant_runtime negative_income_params
      (@empty_state constant_runtime tt) = (Ok (df, tr), s')
    /\ nth 0 (Monthly_Income df) nan
       = Some (App.monthly_income negative_income_params * 1)
    /\ nth 0 (Monthly_Expenses df) nan
       = Some (App.monthly_expenses negative_income_params * 1)
    /\ forall i, (i < Z.to_nat (app_num_months negative_income_params))%nat ->
         exists growth c,
           0 < growth
           /\ c = (App.monthly_income negative_income_params
                   - App.monthly_expenses negative_income_params) * growth
           /\ nth i (Monthly_Investment df) nan = Some c.
Proof.
  apply (@contribution_keeps_sign constant_runtime negative_income_params
           (@empty_state constant_runtime tt)).
  - cbn [negative_income_params App.starting_age App.retirement_age]. lia.
  - cbn [negative_income_params App.annual_volatility]. lra.
  - cbn [negative_income_params App.annual_return_rate]. lra.
  - cbn [negative_income_params App.inflation_rate]. lra.
Defined.

(** ** The batch of [update_graph] and the random stream *)

Section BatchStream.

Context {RT : Runtime}.

Lemma generate_simulation_output (params : App.Params) (r : R) (s : state) :
  (App.starting_age params < App.retirement_age params)%Z ->
  0 <= App.annual_volatility params ->
  app_monthly_expected_return params = Some r ->
  App.generate_simulation params s
  = (Ok (app_run_output params r (gen s)),
     {| frame := fst (app_run_output params r (gen s));
        gen := advance (gen s) (Z.to_nat (app_num_months params)) |}).
Proof.
  intros Hage Hvol Hr.
  assert (Hn : length (app_month_ends params) = Z.to_nat (app_num_months params))
    by (unfold app_month_ends; apply month_ends_length).
  rewrite <- Hn. clear Hn.
  destruct (date_range_pos (app_num_months params)) as (d & ds & Hd & Hds);
    [unfold app_num_months; lia|].
  fold (app_month_ends params) in Hds.
  rewrite generate_simulation_unfold, Hd. cbv zeta.
  rewrite (draw_monthly_returns_ok params _ _ r Hr Hvol).
  cbn [frame gen]. rewrite Hds.
  rewrite app_trailing_closed by (unfold App.default_window; lia).
  unfold app_run_output, app_run_returns, app_final_frame. cbn [fst].
  rewrite normal_draws_stream. cbn [fst snd]. reflexivity.
Qed.

Lemma stream_segments {A : Type} (F : rng -> A) (g : rng) (m n : nat)
    (acc : list A) :
  (acc ++ [F g]) ++ map (fun k => F (advance (advance g m) (k * m))) (seq 0 n)
  = acc ++ map (fun k => F (advance g (k * m))) (seq 0 (S n)).
Proof.
  cbn [seq map]. rewrite <- app_assoc. cbn [app Nat.mul advance].
  do 2 f_equal. rewrite <- seq_shift, map_map. apply map_ext.
  intros k. rewrite advance_add. reflexivity.
Qed.

Lemma run_simulations_stream (params : App.Params) (r : R) (n : nat) :
  (App.starting_age params < App.retirement_age params)%Z ->
  0 <= App.annual_volatility params ->
  app_monthly_expected_return params = Some r ->
  forall all_simulations all_trailing_returns s,
  exists s',
    App.run_simulations params n all_simulations all_trailing_returns s
    = (Ok (all_simulations
           ++ map (fun k => fst (app_run_output params r
                     (advance (gen s) (k * Z.to_nat (app_num_months params)))))
                  (seq 0 n),
           all_trailing_returns
           ++ map (fun k => snd (app_run_output params r
                     (advance (gen s) (k * Z.to_nat (app_num_months params)))))
                  (seq 0 n)), s')
    /\ gen s' = advance (gen s) (n * Z.to_nat (app_num_months params)).
Proof.
  intros Hage Hvol Hr. set (m := Z.to_nat (app_num_months params)).
  induction n as [|n IH]; intros sims0 trs0 s.
  - exists s. cbn [App.run_simulations seq map]. rewrite !app_nil_r.
    split; reflexivity.
  - cbn [App.run_simulations]. unfold bind at 1.
    rewrite (generate_simulation_output params r s Hage Hvol Hr).
    fold m. cbn [fst snd].
    match goal with
    | |- context [App.run_simulations params n ?a ?b ?st] =>
        destruct (IH a b st) as (s' & -> & Hg)
    end.
    cbn [gen] in Hg |- *. exists s'. split.
    + rewrite (stream_segments (fun g => fst (app_run_output params r g))).
      rewrite (stream_segments (fun g => snd (app_run_output params r g))).
      reflexivity.
    + rewrite Hg, advance_add. reflexivity.
Qed.

End BatchStream.

(** X9: the runs of a batch read the random stream one after the other.
    With valid parameters the batch of [update_graph] draws
    [num_simulations * num_months] normal deviates in all, and its [k]-th
    path is the path a single run of [generate_simulation] returns from the
    generator advanced by [k * num_months] deviates. *)
Theorem batch_paths_follow_the_stream {RT : Runtime} (params : App.Params)
    (g : rng) :
  (App.starting_age params < App.retirement_age params)%Z ->
  0 <= App.annual_volatility params ->
  -1 <= App.annual_return_rate params ->
  exists sims trs s',
    App.simulate_batch params (empty_state g) = (Ok (sims, trs), s')
    /\ gen s' = advance g (Z.to_nat (App.num_simulations params)
                           * Z.to_nat (app_num_months params))
    /\ forall k, (k < Z.to_nat (App.num_simulations params))%nat ->
         exists df tr s'',
           nth_error sims k = Some df /\ nth_error trs k = Some tr
           /\ App.generate_simulation params
                (empty_state (advance g (k * Z.to_nat (app_num_months params))))
              = (Ok (df, tr), s'').
Proof.
  intros Hage Hvol Hret.
  destruct (app_monthly_expected_return_defined params Hret) as [r Hr].
  unfold App.simulate_batch.
  destruct (run_simulations_stream params r
              (Z.to_nat (App.num_simulations params)) Hage Hvol Hr [] []
              (empty_state g)) as (s' & Hrun & Hg).
  cbn [app gen empty_state] in Hrun, Hg.
  do 2 eexists. exists s'. split; [exact Hrun|]. split; [exact Hg|].
  intros k Hk. do 3 eexists.
  rewrite !nth_error_map_seq by exact Hk.
  split; [reflexivity|]. split; [reflexivity|].
  rewrite (generate_simulation_output params r _ Hage Hvol Hr).
  cbn [gen empty_state]. rewrite <- surjective_pairing. reflexivity.
Qed.

Lemma batch_paths_follow_the_stream_witness :
  exists sims trs s',
    @App.simulate_batch counter_runtime App.get_default_params
      (@empty_state counter_runtime 0%nat) = (Ok (sims, trs), s')
    /\ gen s' = @advance counter_runtime 0%nat
                  (Z.to_nat (App.num_simulations App.get_default_params)
                   * Z.to_nat (app_num_months App.get_default_params))
    /\ forall k, (k < Z.to_nat (App.num_simulations App.get_default_params))%nat ->
         exists df tr s'',
           nth_error sims k = Some df /\ nth_error trs k = Some tr
           /\ @App.generate_simulation counter_runtime App.get_default_params
                (@empty_state counter_runtime
                   (@advance counter_runtime 0%nat
                      (k * Z.to_nat (app_num_months App.get_default_params))))
              = (Ok (df, tr), s'').
Proof.
  apply (@batch_paths_follow_the_stream counter_runtime App.get_default_params
           0%nat).
  - cbn [App.get_default_params App.starting_age App.retirement_age]. lia.
  - cbn [App.get_default_params App.annual_volatility]. lra.
  - cbn [App.get_default_params App.annual_return_rate]. lra.
Defined.

(** ** Rates below -100% *)

Lemma Int_part_small (y : R) : 0 <= y < 1 -> Int_part y = 0%Z.
Proof. intros H. symmetry. apply Int_part_spec. simpl. lra. Qed.

Lemma power_neg_fraction (x y : R) : x < 0 -> 0 < y < 1 -> power x y = None.
Proof.
  intros Hx Hy. unfold power.
  assert (H0 : Rltb 0 x = false) by (apply Rltb_false; lra).
  assert (H1 : Reqb x 0 = false) by (apply Reqb_false; lra).
  assert (H2 : is_integer y = false).
  { unfold is_integer. rewrite Int_part_small by lra. apply Reqb_false. lra. }
  now rewrite H0, H1, H2.
Qed.

Lemma power_neg_zero (x : R) : x < 0 -> power x 0 = Some 1.
Proof.
  intros Hx. unfold power.
  assert (H0 : Rltb 0 x = false) by (apply Rltb_false; lra).
  assert (H1 : Reqb x 0 = false) by (apply Reqb_false; lra).
  assert (H2 : is_integer 0 = true).
  { unfold is_integer. rewrite Int_part_small by lra. now apply Reqb_true. }
  rewrite H0, H1, H2, Int_part_small by lra. reflexivity.
Qed.

(** X10: an annual return below -100% has no real twelfth root: the monthly
    expected return is not a real float and the normal draw rejects it.  The
    run raises TypeError once the cashflow columns are filled, before any
    deviate is drawn or any portfolio value computed. *)
Theorem return_below_minus_100_raises {RT : Runtime} (params : App.Params)
    (g : rng) :
  (App.starting_age params < App.retirement_age params)%Z ->
  App.annual_return_rate params < -1 ->
  exists s',
    App.generate_simulation params (empty_state g) = (Raise TypeError, s')
    /\ gen s' = g
    /\ Portfolio_Value (frame s') = []
    /\ length (Monthly_Investment (frame s')) = Z.to_nat (app_num_months params).
Proof.
  intros Hage Hret.
  destruct (date_range_pos (app_num_months params)) as (d & ds & Hd & Hds);
    [unfold app_num_months; lia|].
  fold (app_month_ends params) in Hds.
  rewrite generate_simulation_unfold, Hd. cbv zeta. rewrite Hds.
  unfold App.draw_monthly_returns.
  rewrite power_neg_fraction by lra.
  cbn [sub lift2 np_random_normal lift].
  eexists. split; [reflexivity|]. cbn [gen frame empty_state].
  split; [reflexivity|]. split; [reflexivity|].
  unfold app_cashflow_frame.
  destruct (cashflow_frame_lengths (App.starting_age params)
              (App.monthly_income params) (App.monthly_expenses params)
              (App.inflation_rate params) (app_month_ends params))
    as (_ & _ & _ & _ & ->).
  unfold app_month_ends. apply month_ends_length.
Qed.

Lemma return_below_minus_100_raises_witness :
  exists s',
    @App.generate_simulation constant_runtime ruinous_return_params
      (@empty_state constant_runtime tt) = (Raise TypeError, s')
    /\ gen s' = tt
    /\ Portfolio_Value (frame s') = []
    /\ length (Monthly_Investment (frame s'))
       = Z.to_nat (app_num_months ruinous_return_params).
Proof.
  apply (@return_below_minus_100_raises constant_runtime ruinous_return_params tt).
  - cbn [ruinous_return_params App.starting_age App.retirement_age]. lia.
  - cbn [ruinous_return_params App.annual_return_rate]. lra.
Defined.

(** X11: an inflation below -100% raises nothing but ruins the path.  The
    income of month 0 is the base income, the income of month 1 is nan (a
    negative base to a fractional number of years), and the portfolio value
    is nan from month 1 to the end. *)
Theorem inflation_below_minus_100_poisons_path {RT : Runtime}
    (params : App.Params) (s : state) :
  (App.starting_age params < App.retirement_age params)%Z ->
  0 <= App.annual_volatility params ->
  -1 <= App.annual_return_rate params ->
  App.inflation_rate params < -1 ->
  exists df tr s',
    App.generate_simulation params s = (Ok (df, tr), s')
    /\ nth_error (Monthly_Income df) 0 = Some (Some (App.monthly_income params * 1))
    /\ nth_error (Monthly_Income df) 1 = Some nan
    /\ forall j, (1 <= j < Z.to_nat (app_num_months params))%nat ->
         nth_error (Portfolio_Value df) j = Some nan.
Proof.
  intros Hage Hvol Hret Hinf.
  destruct (app_frame_of_run params s Hage Hvol Hret)
    as (df & tr & s' & pv & Hrun & Hdf & Hlen & Hval).
  set (n := Z.to_nat (app_num_months params)) in *.
  assert (Hn : (2 <= n)%nat) by (unfold n, app_num_months; lia).
  set (cf := app_cashflow_frame params (app_month_ends params)) in *.
  assert (Hcols : forall i, (i < n)%nat ->
            let growth :=
              power (1 + App.inflation_rate params)
                (IZR (Calendar.month_end i - Calendar.month_end 0) / 365.25) in
            nth i (Monthly_Income cf) nan
            = (fin (App.monthly_income params) * growth)%float
            /\ nth i (Monthly_Investment cf) nan
               = (fin (App.monthly_income params) * growth
                  - fin (App.monthly_expenses params) * growth)%float).
  { intros i Hi. unfold cf, app_cashflow_frame.
    pose proof (cashflow_frame_nth (App.starting_age params)
                  (App.monthly_income params) (App.monthly_expenses params)
                  (App.inflation_rate params) (app_month_ends params) i) as H.
    cbv zeta in H. destruct H as (_ & Hinc & _ & Hinv).
    { unfold app_month_ends. now rewrite month_ends_length. }
    rewrite Hinc, Hinv. cbv zeta. unfold app_month_ends.
    rewrite elapsed_years by exact Hi. split; reflexivity. }
  assert (Hlen_inc : length (Monthly_Income cf) = n).
  { unfold cf, app_cashflow_frame.
    destruct (cashflow_frame_lengths (App.starting_age params)
                (App.monthly_income params) (App.monthly_expenses params)
                (App.inflation_rate params) (app_month_ends params))
      as (_ & _ & -> & _).
    unfold app_month_ends. apply month_ends_length. }
  destruct (Hcols 0%nat ltac:(lia)) as [H0 _].
  destruct (Hcols 1%nat ltac:(lia)) as [H1 H1inv].
  cbv zeta in H0, H1, H1inv.
  replace (Calendar.month_end 0 - Calendar.month_end 0)%Z with 0%Z in H0 by lia.
  replace (0 / 365.25) with 0 in H0 by lra.
  rewrite power_neg_zero in H0 by lra.
  change (Calendar.month_end 1 - Calendar.month_end 0)%Z with 28%Z in H1, H1inv.
  rewrite power_neg_fraction in H1, H1inv by lra.
  assert (Hpv : forall j, (1 <= j < n)%nat -> nth j pv nan = nan).
  { induction j as [|j IH]; intros Hj; [lia|].
    destruct (Hval (S j) ltac:(lia)) as [r Hr]. rewrite Hr.
    destruct (Nat.eq_dec j 0) as [-> | Hne].
    - rewrite H1inv. apply update_rule_spec_nan_contribution.
    - cbn [prior_balance]. rewrite IH by lia.
      apply update_rule_spec_nan_prior. }
  exists df, tr, s'. split; [exact Hrun|]. rewrite Hdf.
  cbn [Monthly_Income Portfolio_Value set_Portfolio_Value].
  split; [|split].
  - rewrite (nth_error_nth' _ nan) by lia. now rewrite H0.
  - rewrite (nth_error_nth' _ nan) by lia. now rewrite H1.
  - intros j Hj. rewrite (nth_error_nth' _ nan) by lia. now rewrite Hpv.
Qed.

Lemma inflation_below_minus_100_poisons_path_witness :
  exists df tr s',
    @App.generate_simulation constant_runtime deflation_params
      (@empty_state constant_runtime tt) = (Ok (df, tr), s')
    /\ nth_error (Monthly_Income df) 0
       = Some (Some (App.monthly_income deflation_params * 1))
    /\ nth_error (Monthly_Income df) 1 = Some nan
    /\ forall j, (1 <= j < Z.to_nat (app_num_months deflation_params))%nat ->
         nth_error (Portfolio_Value df) j = Some nan.
Proof.
  apply (@inflation_below_minus_100_poisons_path constant_runtime
           deflation_params (@empty_state constant_runtime tt)).
  - cbn [deflation_params App.starting_age App.retirement_age]. lia.
  - cbn [deflation_params App.annual_volatility]. lra.
  - cbn [deflation_params App.annual_return_rate]. lra.
  - cbn [deflation_params App.inflation_rate]. lra.
Defined.

(** ** The crash injection of [plan.py], continued *)

Section Recovery.

Context {RT : Runtime}.

Lemma deviate_S (g : rng) (k : nat) :
  deviate g (S k) = deviate (snd (standard_normal g)) k.
Proof. reflexivity. Qed.

Lemma recovery_step_draw (len_df i recovery_months : nat)
    (monthly_returns : list R) (g : rng) (j : nat) :
  (i + j < len_df)%nat ->
  Plan.recovery_step len_df i recovery_months (monthly_returns, g) j
  = (set_nth monthly_returns (i + j)
       (Plan.monthly_expected_return * (INR j / INR recovery_months)
        + Plan.monthly_volatility * 1.5 * deviate g 0),
     advance g 1).
Proof.
  intros H. unfold Plan.recovery_step.
  destruct (Nat.ltb_spec (i + j) len_df) as [_ | Hge]; [|lia].
  unfold deviate. cbn [normal_draws advance].
  now destruct (standard_normal g).
Qed.

Lemma recovery_fold_values (len_df i recovery_months : nat) (m : nat) :
  forall (a : nat) (monthly_returns : list R) (g : rng),
  length monthly_returns = len_df ->
  (i + a + m <= len_df)%nat ->
  let r := fold_left (Plan.recovery_step len_df i recovery_months) (seq a m)
             (monthly_returns, g) in
  snd r = advance g m
  /\ length (fst r) = len_df
  /\ (forall j, (a <= j < a + m)%nat ->
        nth (i + j) (fst r) 0
        = Plan.monthly_expected_return * (INR j / INR recovery_months)
          + Plan.monthly_volatility * 1.5 * deviate g (j - a))
  /\ (forall k, (k < i + a \/ i + a + m <= k)%nat ->
        nth k (fst r) 0 = nth k monthly_returns 0).
Proof.
  induction m as [|m IH]; intros a rets g Hlen Hb; cbv zeta.
  - cbn [seq fold_left fst snd advance]. repeat split; auto. intros j Hj. lia.
  - cbn [seq fold_left]. rewrite recovery_step_draw by lia.
    set (v := Plan.monthly_expected_return * (INR a / INR recovery_months)
              + Plan.monthly_volatility * 1.5 * deviate g 0).
    destruct (IH (S a) (set_nth rets (i + a) v) (advance g 1))
      as (Hg & Hl & Hv & Hk); [now rewrite set_nth_length | lia|].
    cbv zeta in Hg, Hl, Hv, Hk. split; [|split; [|split]].
    + rewrite Hg. apply advance_add.
    + exact Hl.
    + intros j Hj. destruct (Nat.eq_dec j a) as [-> | Hne].
      * rewrite Hk by lia. rewrite nth_set_nth_eq by lia.
        now rewrite Nat.sub_diag.
      * rewrite Hv by lia.
        replace (j - a)%nat with (S (j - S a)) by lia.
        rewrite deviate_S. reflexivity.
    + intros k Hk'. rewrite Hk by lia. apply nth_set_nth_neq. lia.
Qed.

Lemma no_crash_in_list (len_df : nat) (crash_months : list bool)
    (monthly_returns : list R) (g : rng) (l : list nat) :
  (forall i, In i l -> nth i crash_months false = false) ->
  fold_left (Plan.crash_step len_df crash_months) l (monthly_returns, g)
  = (monthly_returns, g).
Proof.
  induction l as [|i l IH]; intros H; cbn [fold_left]; [reflexivity|].
  rewrite crash_step_no_crash by (apply H; now left).
  apply IH. intros k Hk. apply H. now right.
Qed.

Lemma uniform_draws_length (size : nat) (g : rng) :
  length (fst (uniform_draws size g)) = size.
Proof.
  revert g. induction size as [|k IH]; intros g; simpl; [reflexivity|].
  destruct (random_sample g) as [u g1]. specialize (IH g1).
  destruct (uniform_draws k g1) as [us g2]. simpl in *. now rewrite IH.
Qed.

End Recovery.

(** X15: what one crash writes.  Processing a crash at month [i] stores
    [crash_return] at [i] and, for [0 < j < recovery_months] with
    [recovery_months = min(crash_recovery_months, len(df) - i)], stores at
    month [i + j] the mean [monthly_expected_return * j / recovery_months]
    plus [1.5 * monthly_volatility] times the [j]-th deviate drawn; it draws
    [recovery_months - 1] deviates.  The means lie strictly between 0 and
    [monthly_expected_return]. *)
Theorem crash_recovery_ramp {RT : Runtime} (len_df : nat)
    (crash_months : list bool) (monthly_returns : list R) (g : rng) (i : nat) :
  length monthly_returns = len_df ->
  (i < len_df)%nat ->
  nth i crash_months false = true ->
  let recovery_months := Nat.min Plan.crash_recovery_months (len_df - i) in
  let r := Plan.crash_step len_df crash_months (monthly_returns, g) i in
  snd r = advance g (recovery_months - 1)
  /\ nth i (fst r) 0 = Plan.crash_return
  /\ forall j, (1 <= j < recovery_months)%nat ->
       nth (i + j) (fst r) 0
       = Plan.monthly_expected_return * (INR j / INR recovery_months)
         + Plan.monthly_volatility * 1.5 * deviate g (j - 1)
       /\ 0 < Plan.monthly_expected_return * (INR j / INR recovery_months)
          < Plan.monthly_expected_return.
Proof.
  intros Hlen Hi Hc. cbv zeta. unfold Plan.crash_step. rewrite Hc.
  set (rm := Nat.min Plan.crash_recovery_months (len_df - i)).
  assert (Hrm : (1 <= rm <= len_df - i)%nat).
  { unfold rm, Plan.crash_recovery_months. lia. }
  destruct (recovery_fold_values len_df i rm (rm - 1) 1
              (set_nth monthly_returns i Plan.crash_return) g)
    as (Hg & Hl & Hv & Hk); [now rewrite set_nth_length | lia|].
  cbv zeta in Hg, Hl, Hv, Hk.
  split; [exact Hg|]. split.
  - rewrite Hk by lia. apply nth_set_nth_eq. lia.
  - intros j Hj. split; [apply Hv; lia|].
    pose proof plan_monthly_expected_return_pos as Hm.
    assert (Hj0 : 0 < INR j) by (apply lt_0_INR; lia).
    assert (Hjr : INR j < INR rm) by (apply lt_INR; lia).
    assert (Hr0 : 0 < / INR rm) by (apply Rinv_0_lt_compat; lra).
    assert (Hq : 0 < INR j / INR rm < 1).
    { unfold Rdiv. split; [apply Rmult_lt_0_compat; assumption|].
      rewrite <- (Rinv_r (INR rm)) by lra.
      apply Rmult_lt_compat_r; assumption. }
    nra.
Qed.

Lemma crash_recovery_ramp_witness :
  let recovery_months := Nat.min Plan.crash_recovery_months (3 - 1) in
  let r := @Plan.crash_step counter_runtime 3 [false; true; false]
             ([0; 0; 0], 5%nat) 1 in
  snd r = @advance counter_runtime 5%nat (recovery_months - 1)
  /\ nth 1 (fst r) 0 = Plan.crash_return
  /\ forall j, (1 <= j < recovery_months)%nat ->
       nth (1 + j) (fst r) 0
       = Plan.monthly_expected_return * (INR j / INR recovery_months)
         + Plan.monthly_volatility * 1.5 * @deviate counter_runtime 5%nat (j - 1)
       /\ 0 < Plan.monthly_expected_return * (INR j / INR recovery_months)
          < Plan.monthly_expected_return.
Proof.
  apply (@crash_recovery_ramp counter_runtime 3 [false; true; false]
           [0; 0; 0] 5%nat 1).
  - reflexivity.
  - lia.
  - reflexivity.
Defined.

(** X16: without a crash the returns are the plain normal draws.  When
    every uniform deviate drawn for [crash_months] is at least
    [crash_probability], the returns of the simulation are the normal draws
    untouched, and the crash injection draws nothing more. *)
Theorem no_crash_returns_are_the_draws {RT : Runtime} (len_df : nat) (s : state) :
  let d := normal_draws Plan.monthly_expected_return Plan.monthly_volatility
             len_df (gen s) in
  let u := uniform_draws len_df (snd d) in
  (forall x, In x (fst u) -> Plan.crash_probability <= x) ->
  Plan.generate_returns len_df s
  = (Ok (fst d), {| frame := frame s; gen := snd u |}).
Proof.
  cbv zeta. intros Hu. rewrite generate_returns_ok. unfold plan_returns.
  destruct (normal_draws _ _ len_df (gen s)) as [rets g1]. cbn [fst snd] in *.
  destruct (uniform_draws len_df g1) as [us g2]. cbn [fst snd] in *.
  unfold Plan.simulate_market_crashes.
  rewrite no_crash_in_list; [reflexivity|].
  intros i _. destruct (Nat.lt_ge_cases i (length us)) as [Hi | Hi].
  - rewrite (nth_map_in_range _ us i 0) by exact Hi.
    apply Rltb_false. apply Hu. now apply nth_In.
  - apply nth_overflow. now rewrite length_map.
Qed.

Lemma no_crash_returns_are_the_draws_witness :
  @Plan.generate_returns constant_runtime 3 (@empty_state constant_runtime tt)
  = (Ok (fst (@normal_draws constant_runtime Plan.monthly_expected_return
                Plan.monthly_volatility 3 tt)),
     @Build_state constant_runtime (new_frame []) tt).
Proof.
  apply (@no_crash_returns_are_the_draws constant_runtime 3
           (@empty_state constant_runtime tt)).
  intros x Hx. simpl in Hx. unfold Plan.crash_probability.
  destruct Hx as [<- | [<- | [<- | []]]]; lra.
Defined.

(** ** One simulation of [plan.py] *)

Lemma plan_returns_length {RT : Runtime} (len_df : nat) (g : rng) :
  length (fst (plan_returns len_df g)) = len_df.
Proof.
  unfold plan_returns.
  pose proof (normal_draws_length Plan.monthly_expected_return
                Plan.monthly_volatility len_df g) as Hn.
  destruct (normal_draws _ _ len_df g) as [rets g1]. cbn [fst] in Hn.
  destruct (uniform_draws len_df g1) as [us g2].
  unfold Plan.simulate_market_crashes.
  destruct (crash_fold_spec len_df
              (map (fun u => Rltb u Plan.crash_probability) us) rets g2 len_df)
    as [Hl _].
  cbv zeta in Hl. now rewrite Hl.
Qed.

(** X18: every simulation of [plan.py] returns, whatever the generator: a
    path of 492 months (41 years) with as many trailing returns, the first
    24 of them nan. *)
Theorem plan_simulation_shape {RT : Runtime} (s : state) :
  exists df tr s',
    Plan.simulation s = (Ok (df, tr), s')
    /\ frame s' = df
    /\ length (index df) = 492%nat
    /\ length (Monthly_Investment df) = 492%nat
    /\ length (Portfolio_Value df) = 492%nat
    /\ length tr = 492%nat
    /\ forall i, (i < 24)%nat -> nth_error tr i = Some nan.
Proof.
  rewrite plan_simulation_ok.
  assert (Hn : length plan_month_ends = 492%nat).
  { unfold plan_month_ends. rewrite month_ends_length. reflexivity. }
  revert Hn. generalize plan_month_ends as dates. intros dates Hn.
  pose proof (plan_returns_length (length dates) (gen s)) as Hr.
  revert Hr. generalize (fst (plan_returns (length dates) (gen s))) as rets.
  intros rets Hr.
  destruct (plan_final_frame_rule dates rets) as (pv & Hdf & Hlen & _).
  do 3 eexists. split; [reflexivity|]. cbn [frame]. rewrite Hdf.
  cbn [index Monthly_Investment Portfolio_Value set_Portfolio_Value].
  unfold plan_cashflow_frame.
  destruct (cashflow_frame_lengths Plan.starting_age Plan.monthly_income
              Plan.monthly_expenses Plan.inflation_rate dates)
    as (L1 & _ & _ & _ & L5).
  rewrite L1, L5, Hlen, length_map, length_seq, Hr, Hn.
  repeat split; try reflexivity.
  intros i Hi. rewrite nth_error_map_seq by lia.
  unfold plan_trailing_entry.
  destruct (Nat.ltb_spec i 24); [reflexivity | lia].
Qed.

(** ** The statistics of [update_graph] *)





Lemma Int_part_position (h : R) (n : nat) :
  (1 <= n)%nat -> 0 <= h <= INR n - 1 ->
  (Z.to_nat (Int_part h) <= n - 1)%nat.
Proof.
  intros Hn [H0 H1].
  destruct (base_Int_part h) as [Hle Hgt].
  assert (Hz : (Int_part h <= Z.of_nat n - 1)%Z).
  { apply le_IZR. rewrite minus_IZR, <- INR_IZR_INZ. lra. }
  lia.
Qed.


Lemma iloc_last_nonempty {A : Type} (l : list A) :
  l <> [] -> exists x, Dashboard.iloc_last l = Ok x.
Proof.
  intros H. unfold Dashboard.iloc_last.
  destruct (rev l) as [|x t] eqn:E.
  - apply (f_equal (@rev A)) in E. rewrite rev_involutive in E. now subst.
  - now exists x.
Qed.



(** X12: the edges of the callback.  Before the first click it returns the
    prompt and runs nothing.  After a click, a number of simulations that is
    not positive runs no simulation, so that no parameter is looked at, and
    the lookup [all_simulations[-1]] raises IndexError; the generator is
    left as it was. *)
Theorem update_graph_runs_nothing {RT : Runtime} (n_clicks : Z)
    (form : Dashboard.Form) (s : state) :
  (n_clicks = 0%Z -> Dashboard.update_graph n_clicks form s = (Ok Dashboard.Prompt, s))
  /\ (n_clicks <> 0%Z -> (Dashboard.num_simulations form <= 0)%Z ->
      Dashboard.update_graph n_clicks form s = (Raise IndexError, s)).
Proof.
  split.
  - intros ->. reflexivity.
  - intros Hc Hn. unfold Dashboard.update_graph.
    destruct (Z.eqb_spec n_clicks 0) as [|_]; [contradiction|].
    cbv zeta. unfold App.simulate_batch.
    cbn [Dashboard.to_params App.num_simulations].
    replace (Z.to_nat (Dashboard.num_simulations form)) with 0%nat by lia.
    reflexivity.
Qed.

Lemma update_graph_runs_nothing_witness :
  @Dashboard.update_graph constant_runtime 0 (default_form 100)
    (@empty_state constant_runtime tt)
  = (Ok Dashboard.Prompt, @empty_state constant_runtime tt)
  /\ @Dashboard.update_graph constant_runtime 1 (default_form 0)
       (@empty_state constant_runtime tt)
     = (Raise IndexError, @empty_state constant_runtime tt).
Proof.
  destruct (@update_graph_runs_nothing constant_runtime 0 (default_form 100)
              (@empty_state constant_runtime tt)) as [H0 _].
  destruct (@update_graph_runs_nothing constant_runtime 1 (default_form 0)
              (@empty_state constant_runtime tt)) as [_ H1].
  split; [apply H0; reflexivity | apply H1; [lia | reflexivity]].
Defined.




(** *** Sorting and reading a sorted array *)

Lemma insert_length (x : R) (l : list R) :
  length (Dashboard.insert x l) = S (length l).
Proof.
  induction l as [|h t IH]; [reflexivity|].
  cbn [Dashboard.insert]. destruct (Rleb x h); simpl; [reflexivity|].
  now rewrite IH.
Qed.

Lemma sort_length (l : list R) : length (Dashboard.sort l) = length l.
Proof.
  induction l as [|h t IH]; [reflexivity|].
  cbn [Dashboard.sort]. now rewrite insert_length, IH.
Qed.

Lemma insert_Forall (P : R -> Prop) (x : R) (l : list R) :
  P x -> Forall P l -> Forall P (Dashboard.insert x l).
Proof.
  intros Hx Hl. induction Hl as [|h t Hh Ht IH]; cbn [Dashboard.insert].
  - now constructor.
  - destruct (Rleb x h); repeat constructor; assumption.
Qed.

Lemma insert_sorted (x : R) (l : list R) :
  StronglySorted Rle l -> StronglySorted Rle (Dashboard.insert x l).
Proof.
  intros Hl. induction Hl as [|h t Ht IH Hh]; cbn [Dashboard.insert].
  - repeat constructor.
  - destruct (Rleb x h) eqn:E.
    + apply Rleb_true in E. constructor; [now constructor|].
      constructor; [exact E|].
      apply Forall_forall. intros y Hy.
      rewrite Forall_forall in Hh. specialize (Hh y Hy). lra.
    + apply Rleb_false in E. constructor; [exact IH|].
      apply insert_Forall; [lra | exact Hh].
Qed.

Lemma sort_sorted (l : list R) : StronglySorted Rle (Dashboard.sort l).
Proof.
  induction l as [|h t IH]; cbn [Dashboard.sort]; [constructor|].
  now apply insert_sorted.
Qed.

Lemma sorted_nth (a : list R) :
  StronglySorted Rle a ->
  forall i j, (i <= j < length a)%nat -> nth i a 0 <= nth j a 0.
Proof.
  induction 1 as [|h t Ht IH Hh]; intros i j Hij; [simpl in Hij; lia|].
  destruct i as [|i], j as [|j]; cbn [nth]; try lia; try lra.
  - rewrite Forall_forall in Hh. apply Hh. apply nth_In. simpl in Hij. lia.
  - apply IH. simpl in Hij. lia.
Qed.

Lemma Int_part_mono (h1 h2 : R) : h1 <= h2 -> (Int_part h1 <= Int_part h2)%Z.
Proof.
  intros H. destruct (base_Int_part h1) as [H1 _].
  destruct (base_Int_part h2) as [_ H2].
  assert (Hlt : (Int_part h1 < Int_part h2 + 1)%Z).
  { apply lt_IZR. rewrite plus_IZR. lra. }
  lia.
Qed.

Lemma Int_part_nonneg (h : R) : 0 <= h -> (0 <= Int_part h)%Z.
Proof.
  intros H. destruct (base_Int_part h) as [_ Hgt].
  assert (Hlt : (-1 < Int_part h)%Z) by (apply lt_IZR; lra).
  lia.
Qed.

Lemma position_bounds (h : R) :
  0 <= h ->
  INR (Z.to_nat (Int_part h)) <= h < INR (Z.to_nat (Int_part h)) + 1.
Proof.
  intros H. pose proof (Int_part_nonneg h H) as Hz.
  rewrite INR_IZR_INZ, Z2Nat.id by exact Hz.
  destruct (base_Int_part h). lra.
Qed.

Lemma read_at_bounds (a : list R) (h : R) :
  StronglySorted Rle a -> (1 <= length a)%nat -> 0 <= h <= INR (length a) - 1 ->
  let lo := Z.to_nat (Int_part h) in
  let hi := Nat.min (S lo) (length a - 1) in
  (lo <= hi < length a)%nat
  /\ nth lo a 0 <= read_at a h <= nth hi a 0.
Proof.
  intros Hs Hn Hh lo hi.
  assert (Hlo : (lo <= length a - 1)%nat) by now apply Int_part_position.
  assert (Hhi : (lo <= hi < length a)%nat) by (unfold hi; lia).
  split; [exact Hhi|].
  pose proof (sorted_nth a Hs lo hi Hhi) as Hd.
  pose proof (position_bounds h (proj1 Hh)) as Hg. fold lo in Hg.
  unfold read_at. fold lo. fold hi. nra.
Qed.

Lemma read_at_mono (a : list R) (h1 h2 : R) :
  StronglySorted Rle a -> (1 <= length a)%nat ->
  0 <= h1 -> h1 <= h2 -> h2 <= INR (length a) - 1 ->
  read_at a h1 <= read_at a h2.
Proof.
  intros Hs Hn H0 H12 H2.
  destruct (read_at_bounds a h1 Hs Hn ltac:(lra)) as [Hi1 Hb1].
  destruct (read_at_bounds a h2 Hs Hn ltac:(lra)) as [Hi2 Hb2].
  cbv zeta in Hi1, Hb1, Hi2, Hb2.
  pose proof (Int_part_mono h1 h2 H12) as Hm.
  pose proof (Int_part_nonneg h1 H0) as Hz.
  set (lo1 := Z.to_nat (Int_part h1)) in *.
  set (lo2 := Z.to_nat (Int_part h2)) in *.
  assert (Hlo : (lo1 <= lo2)%nat) by (unfold lo1, lo2; lia).
  destruct (Nat.eq_dec lo1 lo2) as [E | Hne].
  - unfold read_at. fold lo1. fold lo2. rewrite <- E in *.
    pose proof (sorted_nth a Hs lo1 _ Hi1). nra.
  - pose proof (sorted_nth a Hs (Nat.min (S lo1) (length a - 1)) lo2
                  ltac:(lia)). lra.
Qed.

Lemma median_is_read_at (a : list R) :
  (1 <= length a)%nat ->
  (if Nat.even (length a)
   then (nth (length a / 2 - 1) a 0 + nth (length a / 2) a 0) / 2
   else nth (length a / 2) a 0)
  = read_at a ((INR (length a) - 1) * (50 / 100)).
Proof.
  intros Hn. unfold read_at. set (n := length a) in *.
  destruct (Nat.even n) eqn:E.
  - apply Nat.even_spec in E. destruct E as [k Hk].
    assert (Hk1 : (1 <= k)%nat) by lia.
    assert (Hh : (INR n - 1) * (50 / 100) = INR k - 1 / 2).
    { rewrite Hk, mult_INR. simpl INR. lra. }
    assert (Hi : Int_part (INR k - 1 / 2) = (Z.of_nat k - 1)%Z).
    { symmetry. apply Int_part_spec.
      rewrite minus_IZR, <- INR_IZR_INZ. lra. }
    rewrite Hh, Hi.
    replace (Z.to_nat (Z.of_nat k - 1)) with (k - 1)%nat by lia.
    replace (n / 2)%nat with k
      by (rewrite Hk, Nat.mul_comm, Nat.div_mul; lia).
    replace (Nat.min (S (k - 1)) (n - 1)) with k by lia.
    rewrite minus_INR by lia. simpl INR. lra.
  - assert (Ho : Nat.odd n = true) by (unfold Nat.odd; now rewrite E).
    apply Nat.odd_spec in Ho. destruct Ho as [k Hk].
    assert (Hh : (INR n - 1) * (50 / 100) = INR k).
    { rewrite Hk, plus_INR, mult_INR. simpl INR. lra. }
    rewrite Hh, Int_part_INR, Nat2Z.id.
    replace (n / 2)%nat with k.
    + lra.
    + rewrite Hk. apply (Nat.div_unique (2 * k + 1) 2 k 1); lia.
Qed.

(** The percentiles and the median of an array of numbers are in order. *)
Lemma percentiles_in_order (l : list float) (x : R) (xs : list R) :
  Dashboard.numbers l = Some (x :: xs) ->
  exists a b c m,
    Dashboard.np_percentile l 10 = Ok (Some a)
    /\ Dashboard.np_median l = Some b
    /\ Dashboard.np_percentile l 90 = Ok (Some c)
    /\ Dashboard.np_mean l = Some m
    /\ a <= b <= c.
Proof.
  intros Hl.
  unfold Dashboard.np_percentile, Dashboard.np_median, Dashboard.np_mean.
  destruct l as [|v l']; [discriminate|].
  rewrite Hl. cbv zeta.
  set (a := Dashboard.sort (x :: xs)).
  assert (Hs : StronglySorted Rle a) by apply sort_sorted.
  assert (Hn : (1 <= length a)%nat)
    by (unfold a; rewrite sort_length; simpl; lia).
  fold (read_at a ((INR (length a) - 1) * (10 / 100))).
  fold (read_at a ((INR (length a) - 1) * (90 / 100))).
  assert (Hpos : 0 <= INR (length a) - 1).
  { assert (1 <= INR (length a)) by (change 1 with (INR 1); apply le_INR; lia).
    lra. }
  exists (read_at a ((INR (length a) - 1) * (10 / 100))),
         (read_at a ((INR (length a) - 1) * (50 / 100))),
         (read_at a ((INR (length a) - 1) * (90 / 100))).
  eexists. split; [reflexivity|]. split.
  - rewrite <- median_is_read_at by exact Hn.
    now destruct (Nat.even (length a)).
  - split; [reflexivity|]. split; [reflexivity|].
    split; apply read_at_mono; try assumption; nra.
Qed.

Lemma iloc_last_nth {A : Type} (l : list A) (d : A) :
  l <> [] -> Dashboard.iloc_last l = Ok (nth (length l - 1) l d).
Proof.
  intros H. destruct (exists_last H) as (l' & a & ->).
  unfold Dashboard.iloc_last. rewrite rev_unit, length_app. cbn [length].
  replace (length l' + 1 - 1)%nat with (length l') by lia.
  now rewrite nth_middle.
Qed.

Lemma map_result_map {A B C : Type} (f : B -> result C) (G : A -> B)
    (H : A -> C) (l : list A) :
  (forall x, f (G x) = Ok (H x)) ->
  Dashboard.map_result f (map G l) = Ok (map H l).
Proof.
  intros Hf. induction l as [|x t IH]; [reflexivity|].
  cbn [map Dashboard.map_result]. rewrite Hf, IH. reflexivity.
Qed.

Lemma numbers_map_some {A : Type} (X : A -> R) (l : list A) :
  Dashboard.numbers (map (fun k => Some (X k)) l) = Some (map X l).
Proof.
  induction l as [|x t IH]; [reflexivity|].
  cbn [map Dashboard.numbers]. now rewrite IH.
Qed.

Lemma update_rule_spec_number (b c r : R) :
  exists v, update_rule_spec (Some b) (Some c) r = Some v.
Proof.
  destruct (Rle_lt_dec 0 (b + c)) as [H | H].
  - rewrite update_rule_spec_nonneg by exact H. eauto.
  - rewrite update_rule_spec_neg by exact H. eauto.
Qed.

(** With [1 + inflation_rate > 0] every portfolio value of a path is a
    number. *)
Lemma app_final_frame_numbers (params : App.Params) (monthly_returns : list R) :
  0 < 1 + App.inflation_rate params ->
  exists pv,
    app_final_frame params (app_month_ends params) monthly_returns
    = set_Portfolio_Value pv (app_cashflow_frame params (app_month_ends params))
    /\ length pv = Z.to_nat (app_num_months params)
    /\ forall i, (i < Z.to_nat (app_num_months params))%nat ->
         exists x, nth i pv nan = Some x.
Proof.
  intros Hinf.
  destruct (app_final_frame_rule params (app_month_ends params) monthly_returns)
    as (pv & Hdf & Hlen & Hval).
  assert (Hn : length (app_month_ends params) = Z.to_nat (app_num_months params))
    by (unfold app_month_ends; apply month_ends_length).
  rewrite Hn in Hlen, Hval.
  exists pv. split; [exact Hdf|]. split; [exact Hlen|].
  assert (Hc : forall i, (i < Z.to_nat (app_num_months params))%nat ->
            exists c, nth i (Monthly_Investment
                        (app_cashflow_frame params (app_month_ends params))) nan
                      = Some c).
  { intros i Hi. unfold app_cashflow_frame.
    pose proof (cashflow_frame_nth (App.starting_age params)
                  (App.monthly_income params) (App.monthly_expenses params)
                  (App.inflation_rate params) (app_month_ends params) i) as H.
    cbv zeta in H. destruct H as (_ & _ & _ & ->); [now rewrite Hn|].
    rewrite !inflated_amount by assumption. eexists. reflexivity. }
  induction i as [|i IH]; intros Hi.
  - destruct (Hc 0%nat Hi) as [c Hc0]. rewrite Hval, Hc0 by exact Hi.
    apply update_rule_spec_number.
  - destruct (Hc (S i) Hi) as [c HcS]. destruct IH as [b Hb]; [lia|].
    rewrite Hval, HcS by exact Hi. cbn [prior_balance]. rewrite Hb.
    apply update_rule_spec_number.
Qed.

(** X14: the statistics shown are in order.  For valid parameters with
    [1 + inflation_rate > 0] and at least one simulation, whatever the
    random draws, [update_graph] renders, its four statistics are numbers
    and the 10th percentile, the median and the 90th percentile of the final
    portfolio values satisfy [p10 <= median <= p90]. *)
Theorem statistics_in_order {RT : Runtime} (n_clicks : Z)
    (form : Dashboard.Form) (s : state) :
  n_clicks <> 0%Z ->
  (Dashboard.starting_age form < Dashboard.retirement_age form)%Z ->
  0 <= Dashboard.annual_volatility form ->
  -100 <= Dashboard.annual_return form ->
  -100 < Dashboard.inflation_rate form ->
  (0 < Dashboard.num_simulations form)%Z ->
  exists sims trs stats date s' a b c m,
    Dashboard.update_graph n_clicks form s
    = (Ok (Dashboard.Rendered sims trs stats date), s')
    /\ length sims = Z.to_nat (Dashboard.num_simulations form)
    /\ Dashboard.p10_final stats = Some a
    /\ Dashboard.median_final stats = Some b
    /\ Dashboard.p90_final stats = Some c
    /\ Dashboard.avg_final stats = Some m
    /\ a <= b <= c.
Proof.
  intros Hc Hage Hv Hret Hinf Hn.
  set (p := Dashboard.to_params form).
  assert (Hvol : 0 <= App.annual_volatility p).
  { unfold p. cbn [Dashboard.to_params App.annual_volatility]. lra. }
  assert (Hage' : (App.starting_age p < App.retirement_age p)%Z) by exact Hage.
  assert (Hret' : -1 <= App.annual_return_rate p).
  { unfold p. cbn [Dashboard.to_params App.annual_return_rate]. lra. }
  assert (Hinf' : 0 < 1 + App.inflation_rate p).
  { unfold p. cbn [Dashboard.to_params App.inflation_rate]. lra. }
  destruct (app_monthly_expected_return_defined p Hret') as [r Hr].
  set (N := Z.to_nat (Dashboard.num_simulations form)).
  assert (HN : (1 <= N)%nat) by (unfold N; lia).
  set (m := Z.to_nat (app_num_months p)).
  assert (Hm : (1 <= m)%nat) by (unfold m, app_num_months; lia).
  destruct (run_simulations_stream p r N Hage' Hvol Hr [] [] s)
    as (s' & Hrun & _).
  cbn [app] in Hrun. fold m in Hrun.
  set (G := fun k => fst (app_run_output p r (advance (gen s) (k * m)))) in *.
  set (X := fun k => number_of (nth (m - 1) (Portfolio_Value (G k)) nan)).
  assert (HG : forall k, exists pv,
            G k = set_Portfolio_Value pv
                    (app_cashflow_frame p (app_month_ends p))
            /\ length pv = m
            /\ exists x, nth (m - 1) pv nan = Some x).
  { intros k. unfold G, app_run_output. cbn [fst].
    destruct (app_final_frame_numbers p
                (app_run_returns p r (advance (gen s) (k * m))) Hinf')
      as (pv & Hdf & Hlen & Hnum).
    exists pv. split; [exact Hdf|]. split; [exact Hlen|].
    apply Hnum. fold m. lia. }
  assert (Hlast : forall k,
            Dashboard.iloc_last (Portfolio_Value (G k)) = Ok (Some (X k))).
  { intros k. unfold X. destruct (HG k) as (pv & -> & Hlen & x & Hx).
    cbn [Portfolio_Value set_Portfolio_Value].
    rewrite (iloc_last_nth pv nan)
      by (intros E; rewrite E in Hlen; simpl in Hlen; lia).
    rewrite Hlen, Hx. reflexivity. }
  assert (Hdate : exists d,
            rbind (Dashboard.iloc_last (map G (seq 0 N)))
                  (fun sim => Dashboard.iloc_last (index sim)) = Ok d).
  { rewrite (iloc_last_nth _ (G 0%nat))
      by (destruct N; [lia | discriminate]).
    rewrite length_map, length_seq, nth_map_seq by lia. cbn [rbind Nat.add].
    destruct (HG (N - 1)%nat) as (pv & -> & _).
    cbn [index set_Portfolio_Value]. apply iloc_last_nonempty.
    unfold app_cashflow_frame. cbn [index cashflow_frame].
    intros E. apply (f_equal (@length Z)) in E.
    unfold app_month_ends in E. rewrite month_ends_length in E.
    fold m in E. simpl in E. lia. }
  destruct Hdate as [d Hd].
  assert (Hnum : exists x xs,
            Dashboard.numbers (map (fun k => Some (X k)) (seq 0 N))
            = Some (x :: xs)).
  { rewrite numbers_map_some. destruct N as [|k]; [lia|].
    cbn [seq map]. eauto. }
  destruct Hnum as (x & xs & Hnum).
  destruct (percentiles_in_order _ x xs Hnum)
    as (a & b & c & mean & Ha & Hb & Hc' & Hmean & Hord).
  do 3 eexists. exists d, s', a, b, c, mean. split.
  - unfold Dashboard.update_graph.
    destruct (Z.eqb_spec n_clicks 0) as [|_]; [contradiction|].
    cbv zeta. fold p. unfold App.simulate_batch.
    change (Z.to_nat (App.num_simulations p)) with N.
    unfold bind at 1. rewrite Hrun. cbn [fst snd].
    unfold bind at 1. unfold lift at 1.
    rewrite (map_result_map _ G (fun k => Some (X k)) _ Hlast).
    unfold bind at 1. unfold lift at 1. rewrite Ha.
    unfold bind at 1. unfold lift at 1. rewrite Hc'.
    unfold bind at 1. unfold lift at 1.
    rewrite Hd. unfold ret. reflexivity.
  - cbn [Dashboard.avg_final Dashboard.median_final Dashboard.p10_final
         Dashboard.p90_final].
    rewrite length_map, length_seq. auto 10.
Qed.

Lemma statistics_in_order_witness :
  exists sims trs stats date s' a b c m,
    @Dashboard.update_graph counter_runtime 1 (default_form 100)
      (@empty_state counter_runtime 0%nat)
    = (Ok (Dashboard.Rendered sims trs stats date), s')
    /\ length sims = Z.to_nat (Dashboard.num_simulations (default_form 100))
    /\ Dashboard.p10_final stats = Some a
    /\ Dashboard.median_final stats = Some b
    /\ Dashboard.p90_final stats = Some c
    /\ Dashboard.avg_final stats = Some m
    /\ a <= b <= c.
Proof.
  apply (@statistics_in_order counter_runtime 1 (default_form 100)
           (@empty_state counter_runtime 0%nat)).
  - lia.
  - cbn [default_form Dashboard.starting_age Dashboard.retirement_age]. lia.
  - cbn [default_form Dashboard.annual_volatility]. lra.
  - cbn [default_form Dashboard.annual_return]. lra.
  - cbn [default_form Dashboard.inflation_rate]. lra.
  - reflexivity.
Defined.

(** ** Returns and cashflows *)

(** X19: the market does not look at the cashflows.  Two runs from the same
    generator state, with the same ages, annual return and volatility, have
    the same trailing return series and leave the generator in the same
    state, whatever their incomes, expenses, inflation rates and initial
    investments. *)
Theorem trailing_returns_ignore_cashflows {RT : Runtime}
    (params1 params2 : App.Params) (s1 s2 : state) :
  (App.starting_age params1 < App.retirement_age params1)%Z ->
  0 <= App.annual_volatility params1 ->
  -1 <= App.annual_return_rate params1 ->
  App.starting_age params2 = App.starting_age params1 ->
  App.retirement_age params2 = App.retirement_age params1 ->
  App.annual_return_rate params2 = App.annual_return_rate params1 ->
  App.annual_volatility params2 = App.annual_volatility params1 ->
  gen s2 = gen s1 ->
  exists df1 df2 tr s1' s2',
    App.generate_simulation params1 s1 = (Ok (df1, tr), s1')
    /\ App.generate_simulation params2 s2 = (Ok (df2, tr), s2')
    /\ gen s2' = gen s1'.
Proof.
  intros Hage Hvol Hret Es Er Ea Ev Eg.
  destruct (app_monthly_expected_return_defined params1 Hret) as [r Hr].
  assert (Hr2 : app_monthly_expected_return params2 = Some r).
  { unfold app_monthly_expected_return in *. now rewrite Ea. }
  assert (Em : app_num_months params2 = app_num_months params1).
  { unfold app_num_months. now rewrite Es, Er. }
  assert (Ed : app_month_ends params2 = app_month_ends params1).
  { unfold app_month_ends. now rewrite Em. }
  rewrite (generate_simulation_output params1 r s1 Hage Hvol Hr).
  rewrite (generate_simulation_output params2 r s2)
    by (try rewrite Es, Er; try rewrite Ev; assumption).
  do 5 eexists. split; [apply f_equal2; [|reflexivity]; apply f_equal;
                        apply surjective_pairing|].
  split.
  - apply f_equal2; [|reflexivity]. apply f_equal.
    rewrite (surjective_pairing (app_run_output params2 r (gen s2))).
    apply f_equal2; [reflexivity|].
    unfold app_run_output, app_run_returns. cbn [snd].
    now rewrite Ed, Ev, Eg.
  - cbn [gen]. now rewrite Em, Eg.
Qed.

Lemma trailing_returns_ignore_cashflows_witness :
  exists df1 df2 tr s1' s2',
    @App.generate_simulation counter_runtime App.get_default_params
      (@empty_state counter_runtime 4%nat) = (Ok (df1, tr), s1')
    /\ @App.generate_simulation counter_runtime frugal_params
         (@empty_state counter_runtime 4%nat) = (Ok (df2, tr), s2')
    /\ gen s2' = gen s1'.
Proof.
  apply (@trailing_returns_ignore_cashflows counter_runtime
           App.get_default_params frugal_params
           (@empty_state counter_runtime 4%nat)
           (@empty_state counter_runtime 4%nat)).
  - cbn [App.get_default_params App.starting_age App.retirement_age]. lia.
  - cbn [App.get_default_params App.annual_volatility]. lra.
  - cbn [App.get_default_params App.annual_return_rate]. lra.
  - reflexivity.
  - reflexivity.
  - reflexivity.
  - reflexivity.
  - reflexivity.
Defined.
